(** * docker-machine-oneview: layer transfer test doubles and the OneView
      profile lookup

    Shallow embedding of
    - [distribution/xfer/download_test.go]: the chain-ID construction, the
      in-memory layer store and the download descriptor used to exercise the
      layer download manager;
    - [drivers/oneview/ov]: [OVClient.GetProfileNameBySN].

    Go strings are byte strings, so they are modelled by [string]; digests,
    DiffIDs and ChainIDs are Go string types and stay strings here. *)

From stdpp Require Import gmap strings list fin_maps.
From Stdlib Require Import ZArith.

Local Open Scope string_scope.
Local Open Scope list_scope.

(** ** Go errors and outcomes *)

(** The error values that occur in the modelled code. *)
Inductive error : Type :=
| ErrLayerDoesNotExist            (* layer.ErrLayerDoesNotExist *)
| Canceled                        (* context.Canceled *)
| errors_New (msg : string).      (* errors.New(msg), and errors of callees *)

#[global] Instance error_eq_dec : EqDecision error.
Proof. solve_decision. Defined.

(** A call either returns a value, returns a non-nil [error], or panics. *)
Inductive exec (A : Type) : Type :=
| Ok (a : A)
| Err (e : error)
| Panic (e : error).

Arguments Ok {A} a.
Arguments Err {A} e.
Arguments Panic {A} e.

Definition is_Ok {A} (r : exec A) : bool :=
  match r with Ok _ => true | _ => false end.

(** ** The canonical digest

    [digest.FromBytes] belongs to github.com/docker/distribution/digest, not
    to the files studied here; the functions below take it as a parameter.
    This module gives the instance the Go code links against, SHA-256
    (FIPS 180-4) printed as [sha256:<hex>], to evaluate the functions on
    the inputs of the tests. *)

Module Sha256.

Local Open Scope Z_scope.

Definition w32 (x : Z) : Z := Z.land x 0xffffffff.
Definition add32 (x y : Z) : Z := w32 (x + y).
Definition rotr (n x : Z) : Z :=
  Z.lor (Z.shiftr x n) (w32 (Z.shiftl x (32 - n))).
Definition not32 (x : Z) : Z := Z.lxor x 0xffffffff.

Definition Ch (x y z : Z) : Z := Z.lxor (Z.land x y) (Z.land (not32 x) z).
Definition Maj (x y z : Z) : Z :=
  Z.lxor (Z.lxor (Z.land x y) (Z.land x z)) (Z.land y z).
Definition Sigma0 (x : Z) : Z := Z.lxor (Z.lxor (rotr 2 x) (rotr 13 x)) (rotr 22 x).
Definition Sigma1 (x : Z) : Z := Z.lxor (Z.lxor (rotr 6 x) (rotr 11 x)) (rotr 25 x).
Definition sigma0 (x : Z) : Z := Z.lxor (Z.lxor (rotr 7 x) (rotr 18 x)) (Z.shiftr x 3).
Definition sigma1 (x : Z) : Z := Z.lxor (Z.lxor (rotr 17 x) (rotr 19 x)) (Z.shiftr x 10).

(** The round constants are the first 32 fractional bits of the cube roots
    of the first 64 primes, the initial hash value those of the square
    roots of the first 8. *)
Definition prime (p : Z) : bool :=
  forallb (fun d => negb (p mod d =? 0)) (seqZ 2 (Z.sqrt p - 1)).

Definition primes (n : nat) : list Z := take n (filter (fun p => prime p = true) (seqZ 2 310)).

(** Integer cube root by bisection on [lo, lo + 2^k). *)
Fixpoint cbrt_bits (k : nat) (x lo : Z) : Z :=
  match k with
  | O => lo
  | S k' =>
    let mid := lo + 2 ^ Z.of_nat k' in
    cbrt_bits k' x (if mid * mid * mid <=? x then mid else lo)
  end.

Definition K256 : list Z :=
  (fun p => w32 (cbrt_bits 40 (Z.shiftl p 96) 0)) <$> primes 64.

Definition H256 : list Z :=
  (fun p => w32 (Z.sqrt (Z.shiftl p 64))) <$> primes 8.

Definition bytes_of (s : string) : list Z :=
  (fun a => Z.of_N (Ascii.N_of_ascii a)) <$> String.list_ascii_of_string s.

(** Big-endian encoding of [x] on [n] bytes. *)
Fixpoint be_bytes (n : nat) (x : Z) : list Z :=
  match n with
  | O => []
  | S n' => Z.land (Z.shiftr x (8 * Z.of_nat n')) 0xff :: be_bytes n' x
  end.

Definition pad (msg : list Z) : list Z :=
  let len := Z.of_nat (length msg) in
  msg ++ [0x80] ++ replicate (Z.to_nat ((55 - len) mod 64)) 0 ++ be_bytes 8 (8 * len).

Definition be_word (b : list Z) : Z :=
  fold_left (fun acc x => Z.lor (Z.shiftl acc 8) x) b 0.

(** The words of a byte list, four bytes each; [fuel] bounds the length. *)
Fixpoint words (fuel : nat) (b : list Z) : list Z :=
  match fuel, b with
  | S f, _ :: _ => be_word (take 4 b) :: words f (drop 4 b)
  | _, _ => []
  end.

(** Message schedule, most recent word first. *)
Fixpoint schedule (n : nat) (rw : list Z) : list Z :=
  match n with
  | O => rw
  | S n' =>
    let w := add32 (add32 (sigma1 (nth 1 rw 0)) (nth 6 rw 0))
                   (add32 (sigma0 (nth 14 rw 0)) (nth 15 rw 0)) in
    schedule n' (w :: rw)
  end.

Definition round (st : list Z) (kw : Z * Z) : list Z :=
  match st with
  | [a; b; c; d; e; f; g; h] =>
    let t1 := add32 (add32 (add32 h (Sigma1 e)) (add32 (Ch e f g) (fst kw))) (snd kw) in
    let t2 := add32 (Sigma0 a) (Maj a b c) in
    [add32 t1 t2; a; b; c; add32 d t1; e; f; g]
  | _ => st
  end.

Definition compress (h : list Z) (block : list Z) : list Z :=
  let w := rev (schedule 48 (rev block)) in
  zip_with add32 h (fold_left round (zip K256 w) h).

Fixpoint blocks (fuel : nat) (h : list Z) (w : list Z) : list Z :=
  match fuel, w with
  | S f, _ :: _ => blocks f (compress h (take 16 w)) (drop 16 w)
  | _, _ => h
  end.

Definition sha256 (msg : list Z) : list Z :=
  let p := pad msg in
  let w := words (length p) p in
  concat (be_bytes 4 <$> blocks (length w) H256 w).

Definition hex_digit (x : Z) : Ascii.ascii :=
  Ascii.ascii_of_N (Z.to_N (if x <? 10 then 48 + x else 87 + x)).

Fixpoint hex (b : list Z) : string :=
  match b with
  | [] => EmptyString
  | x :: b' => String (hex_digit (Z.shiftr x 4)) (String (hex_digit (Z.land x 0xf)) (hex b'))
  end.

(** [digest.FromBytes] for the canonical algorithm; hashing a byte slice
    held in memory does not fail. *)
Definition FromBytes (p : string) : exec string :=
  Ok ("sha256:" +:+ hex (sha256 (bytes_of p)))%string.

End Sha256.

(** ** Layers (package xfer, download_test.go) *)

Definition Digest := string.
Definition DiffID := string.
Definition ChainID := string.

(** A [*mockLayer] is an address into the object heap. *)
Definition loc := nat.

(** [type mockLayer struct]; [parent] is a [layer.Layer] interface value,
    either nil or a pointer to another mock layer. *)
Record mockLayer : Type := MockLayer {
  layerData : string;
  diffID : DiffID;
  chainID : ChainID;
  parent : option loc
}.

#[global] Instance mockLayer_eq_dec : EqDecision mockLayer.
Proof. solve_decision. Defined.

(** [type mockLayerStore struct { layers map[layer.ChainID]*mockLayer }] *)
Record mockLayerStore : Type := MockLayerStore {
  layers : gmap string loc
}.

(** The memory the store methods run in: the heap of layer objects and the
    store that points into it. *)
Record Mem : Type := MkMem {
  objs : list mockLayer;
  ls : mockLayerStore
}.

(** An [io.Reader] as [bytes.Buffer.ReadFrom] sees it: the bytes it yields
    and the error, if any, that ends the stream instead of EOF. *)
Record Reader : Type := MkReader {
  r_bytes : string;
  r_err : option error
}.

#[global] Instance Reader_eq_dec : EqDecision Reader.
Proof. solve_decision. Defined.

(** [bytes.NewBuffer(b)]: yields [b], then EOF. *)
Definition NewBuffer (b : string) : Reader := MkReader b None.

(** [&mockLayerStore{make(map[layer.ChainID]*mockLayer)}] on an empty heap. *)
Definition empty_store : Mem := MkMem [] (MockLayerStore ∅).

(** State and error monad of the store methods.  Effects performed before
    an error or a panic stay in the memory, as in Go. *)
Definition M (A : Type) : Type := Mem -> exec A * Mem.

Definition ret {A} (a : A) : M A := fun m => (Ok a, m).

Definition bind {A B} (c : M A) (k : A -> M B) : M B := fun m =>
  match c m with
  | (Ok a, m') => k a m'
  | (Err e, m') => (Err e, m')
  | (Panic e, m') => (Panic e, m')
  end.

Definition lift {A} (r : exec A) : M A := fun m => (r, m).

Notation "x <- c ;; k" := (bind c (fun x => k))
  (at level 100, c at next level, right associativity).
Notation "c ;;; k" := (bind c (fun _ => k))
  (at level 100, right associativity).

(** [&mockLayer{...}] *)
Definition new_mockLayer (l : mockLayer) : M loc := fun m =>
  (Ok (length (objs m)), MkMem (objs m ++ [l]) (ls m)).

Definition update (l : loc) (f : mockLayer -> mockLayer) : M unit := fun m =>
  (Ok tt, MkMem (alter f l (objs m)) (ls m)).

Definition deref (l : loc) : M mockLayer := fun m =>
  match objs m !! l with
  | Some o => (Ok o, m)
  | None => (Panic (errors_New "invalid memory address or nil pointer dereference"), m)
  end.

(** [l.layerData.ReadFrom(reader)]: the bytes read are appended to the
    buffer, also when the reader ends with an error. *)
Definition ReadFrom (l : loc) (reader : Reader) : M unit :=
  update l (fun o => MockLayer (layerData o +:+ r_bytes reader) (diffID o) (chainID o) (parent o)) ;;;
  match r_err reader with
  | Some err => lift (Err err)
  | None => ret tt
  end.

Definition set_diffID (l : loc) (d : DiffID) : M unit :=
  update l (fun o => MockLayer (layerData o) d (chainID o) (parent o)).

Definition set_chainID (l : loc) (c : ChainID) : M unit :=
  update l (fun o => MockLayer (layerData o) (diffID o) c (parent o)).

(** [ls.layers[chainID] = l] *)
Definition layers_store (c : ChainID) (l : loc) : M unit := fun m =>
  (Ok tt, MkMem (objs m) (MockLayerStore (<[c := l]> (layers (ls m))))).

(** The parent a registration resolves: nil for the empty ID, else the
    layer the store holds for it, else the error of [Get]. *)
Definition resolve_parent (parentID : ChainID) (m : Mem) : exec (option loc) :=
  if decide (parentID = "") then Ok None
  else match layers (ls m) !! parentID with
       | Some p => Ok (Some p)
       | None => Err ErrLayerDoesNotExist
       end.

(** ** The download descriptor of the tests *)

(** [const maxDownloadConcurrency = 3] *)
Definition maxDownloadConcurrency : Z := 3.

(** Wrap-around of [int32] and of [int] (64 bits). *)
Definition wrap32 (z : Z) : Z := ((z + 2 ^ 31) mod 2 ^ 32 - 2 ^ 31)%Z.
Definition wrap64 (z : Z) : Z := ((z + 2 ^ 63) mod 2 ^ 64 - 2 ^ 63)%Z.

Module mockDownloadDescriptor.

(** [type mockDownloadDescriptor struct].  [currentDownloads] is a
    [*int32]: nil ([false]) or the address of the counter that the test
    declares and hands to all its descriptors ([true]). *)
Record t : Type := Mk {
  currentDownloads : bool;
  id : string;
  diffID : string;
  registeredDiffID : string;
  expectedDiffID : string;
  simulateRetries : Z
}.

(** Key returns the key used to deduplicate downloads. *)
Definition Key (d : t) : string := id d.

(** ID returns the ID for display purposes. *)
Definition ID (d : t) : string := id d.

(** DiffID should return the DiffID for this layer, or an error if it is
    unknown. *)
Definition DiffID (d : t) : exec string :=
  if decide (diffID d <> "") then Ok (diffID d)
  else Err (errors_New "no diffID available").

Definition Registered (d : t) (diffID' : string) : t :=
  Mk (currentDownloads d) (id d) (diffID d) diffID' (expectedDiffID d) (simulateRetries d).

(** The mock implementation returns the ID repeated 5 times as a tar
    stream instead of actual tar data. *)
Definition mockTarStream (d : t) : Reader :=
  NewBuffer (id d +:+ id d +:+ id d +:+ id d +:+ id d).

(** [Download] runs for a while, so that other tasks act between its
    entry and its return; it is given by its three stretches.

    Entry: with a counter, [atomic.AddInt32(d.currentDownloads, 1)] and the
    comparison with the limit; the decrement is deferred only then.  The
    result is the new counter, whether a decrement is deferred, and whether
    the limit is exceeded. *)
Definition Download_enter (d : t) (counter : Z) : Z * bool * bool :=
  if currentDownloads d then
    let c := wrap32 (counter + 1) in (c, true, (c >? maxDownloadConcurrency)%Z)
  else (counter, false, false).

(** The deferred [atomic.AddInt32(d.currentDownloads, -1)]. *)
Definition Download_deferred (deferred : bool) (counter : Z) : Z :=
  if deferred then wrap32 (counter - 1) else counter.

(** After the loop of eleven ticks has run without the context being done:
    a simulated failure if some remain, else the tar stream. *)
Definition Download_finish (d : t) : t * exec Reader :=
  if decide (simulateRetries d <> 0%Z) then
    (Mk (currentDownloads d) (id d) (diffID d) (registeredDiffID d) (expectedDiffID d)
        (wrap64 (simulateRetries d - 1)),
     Err (errors_New "simulating retry"))
  else (d, Ok (mockTarStream d)).

(** [Download] when nothing else runs meanwhile.  [done_at] is the tick of
    the loop, if any, at which [ctx.Done()] is found closed. *)
Definition Download (d : t) (done_at : option nat) (counter : Z) : t * Z * exec Reader :=
  let '(c, deferred, over) := Download_enter d counter in
  if over then (d, Download_deferred deferred c, Err (errors_New "concurrency limit exceeded"))
  else
    match done_at with
    | Some i =>
      if decide (i <= 10) then (d, Download_deferred deferred c, Err Canceled)
      else let '(d', r) := Download_finish d in (d', Download_deferred deferred c, r)
    | None => let '(d', r) := Download_finish d in (d', Download_deferred deferred c, r)
    end.

End mockDownloadDescriptor.

Abbreviation descriptor := mockDownloadDescriptor.t.

(** [func downloadDescriptors(currentDownloads *int32) []DownloadDescriptor] *)
Definition downloadDescriptors (currentDownloads : bool) : list descriptor :=
  [ mockDownloadDescriptor.Mk currentDownloads "id1" "" ""
      "sha256:68e2c75dc5c78ea9240689c60d7599766c213ae210434c53af18470ae8c53ec1" 0;
    mockDownloadDescriptor.Mk currentDownloads "id2" "" ""
      "sha256:64a636223116aa837973a5d9c2bdd17d9b204e4f95ac423e20e65dfbb3655473" 0;
    mockDownloadDescriptor.Mk currentDownloads "id3" "" ""
      "sha256:58745a8bbd669c25213e9de578c4da5c8ee1c836b3581432c2b50e38a6753300" 0;
    mockDownloadDescriptor.Mk currentDownloads "id2" "" ""
      "sha256:64a636223116aa837973a5d9c2bdd17d9b204e4f95ac423e20e65dfbb3655473" 0;
    mockDownloadDescriptor.Mk currentDownloads "id4" "" ""
      "sha256:0dfb5b9577716cc173e95af7c10289322c29a6453a1718addc00c0c5b1330936" 1;
    mockDownloadDescriptor.Mk currentDownloads "id5" "" ""
      "sha256:0a5f25fa1acbc647f6112a6276735d0fa01e4ee2aa7ec33015e337350e1ea23d" 0 ].

Section WithDigest.

(** [digest.FromBytes] of github.com/docker/distribution/digest, a package
    outside this repository: the canonical digest of a byte string, in
    [algorithm:hex] form, or an error. *)
Variable FromBytes : string -> exec Digest.

(** [func createChainIDFromParent(parent layer.ChainID, dgsts ...layer.DiffID)] *)
Fixpoint createChainIDFromParent (parent : ChainID) (dgsts : list DiffID) : exec ChainID :=
  match dgsts with
  | [] => Ok parent
  | d :: rest =>
    if decide (parent = "") then createChainIDFromParent d rest
    else
      (* H = "H(n-1) SHA256(n)" *)
      match FromBytes (parent +:+ " " +:+ d) with
      | Ok dgst => createChainIDFromParent dgst rest
      | Err err => Panic err
      | Panic err => Panic err
      end
  end.

(** [func (ls *mockLayerStore) Get(chainID layer.ChainID)] *)
Definition Get (chainID : ChainID) : M loc := fun m =>
  match layers (ls m) !! chainID with
  | None => (Err ErrLayerDoesNotExist, m)
  | Some l => (Ok l, m)
  end.

(** [func (ls *mockLayerStore) Register(reader io.Reader, parentID layer.ChainID)] *)
Definition Register (reader : Reader) (parentID : ChainID) : M loc :=
  parent <- (if decide (parentID = "") then ret None
             else p <- Get parentID ;; ret (Some p)) ;;
  l <- new_mockLayer (MockLayer "" "" "" parent) ;;
  ReadFrom l reader ;;;
  o <- deref l ;;
  diffID <- lift (FromBytes (layerData o)) ;;
  set_diffID l diffID ;;;
  chainID <- lift (createChainIDFromParent parentID [diffID]) ;;
  set_chainID l chainID ;;;
  layers_store chainID l ;;;
  ret l.

End WithDigest.

(** ** The layer download manager *)

(** The manager and its transfer registry ([NewLayerDownloadManager],
    [Download], the transfer worker) are exercised by download_test.go, but
    their Go sources are not among the files studied here.  They are given
    below as a transition system over the layer store and the descriptors of
    the tests: each step is one atomic action of a caller, of the manager
    serving a call, or of the worker of a transfer, and the steps of
    different tasks interleave freely.  Progress events and the lengths of
    sleeps are left out. *)

(** Modelled from the spec: the life of a transfer worker, missing with
    transfer.go and download.go (design 4.3, steps 1 to 7, and the states
    [running], [done], [failed], [cancelled] of section 3).  The running
    state is split by what the worker does next: [Start] before the
    already-known shortcut, [WaitSlot] suspended on the semaphore, [Ready]
    holding a slot before a call of [Download] (after a failed call: in the
    backoff sleep), [InDownload] inside [Descriptor.Download] with what its
    entry decided, [AwaitParent] with the bytes drained and the slot given
    back. *)
Inductive phase : Type :=
| Start
| WaitSlot
| Ready
| InDownload (deferred over : bool)
| AwaitParent (stream : Reader)
| Done (l : loc) (d : DiffID)
| Failed (e : error)
| Cancelled.

#[global] Instance phase_eq_dec : EqDecision phase.
Proof. solve_decision. Defined.

Definition terminal (p : phase) : bool :=
  match p with Done _ _ | Failed _ | Cancelled => true | _ => false end.

(** Phases in which the worker holds a slot of the download semaphore. *)
Definition holds_slot (p : phase) : bool :=
  match p with Ready | InDownload _ _ => true | _ => false end.

Definition in_download (p : phase) : bool :=
  match p with InDownload _ _ => true | _ => false end.

(** Modelled from the spec: the transfer object of transfer.go (section 3,
    "Transfer").  [t_desc] is the descriptor the worker was made for,
    [t_parent] the parent transfer, [t_base] the ChainID under which a
    transfer without parent registers, [t_calls] the number of calls of
    [Descriptor.Download] so far, [t_ctx] whether the worker's context is
    signalled.  The watchers are kept with the calls that own them. *)
Record transfer : Type := MkTransfer {
  t_key : string;
  t_desc : nat;
  t_parent : option nat;
  t_base : ChainID;
  t_phase : phase;
  t_calls : nat;
  t_ctx : bool
}.

(** Modelled from the spec: a watcher of transfer.go, one caller's view
    into a transfer (glossary): the transfer it is attached to, whether it
    asked for cancellation, whether it was released. *)
Record watcher : Type := MkWatcher {
  w_xfer : nat;
  w_cancel : bool;
  w_released : bool
}.

(** Modelled from the spec: one call of [LayerDownloadManager.Download]
    (design 4.4): the caller's context, [initialRootFS.DiffIDs], the
    descriptors (addresses of the descriptor objects), the per-call slice of
    watchers in dispatch order, the number of watchers already waited for,
    and the value returned once the call is over. *)
Record call : Type := MkCall {
  c_ctx : bool;
  c_initial : list DiffID;
  c_descs : list nat;
  c_watchers : list watcher;
  c_pos : nat;
  c_result : option (exec (list DiffID))
}.

(** What the history records: a call of [Download] on descriptor [a] by
    the worker of transfer [t], a call of [LayerStore.Register] by the
    worker of [t] that returned layer [l], a call of [Registered] on
    descriptor [a]. *)
Inductive event : Type :=
| EvDownload (t a : nat)
| EvRegister (t : nat) (l : loc)
| EvRegistered (a : nat) (d : DiffID).

#[global] Instance event_eq_dec : EqDecision event.
Proof. solve_decision. Defined.

(** Modelled from the spec: the state of the process that runs the manager
    of download.go: the layer store, the descriptor objects and the counter
    they share, the registry (section 3, "Registry"), the transfers ever
    made, the calls ever started, the number of semaphore slots in use
    (section 5), and the history of calls made to the collaborators. *)
Record System : Type := MkSystem {
  mem : Mem;
  descs : list descriptor;
  counter : Z;
  registry : gmap string nat;
  xfers : list transfer;
  calls : list call;
  sem : nat;
  history : list event
}.

Definition with_mem (x : Mem) (s : System) : System :=
  MkSystem x (descs s) (counter s) (registry s) (xfers s) (calls s) (sem s) (history s).
Definition with_descs (x : list descriptor) (s : System) : System :=
  MkSystem (mem s) x (counter s) (registry s) (xfers s) (calls s) (sem s) (history s).
Definition with_counter (x : Z) (s : System) : System :=
  MkSystem (mem s) (descs s) x (registry s) (xfers s) (calls s) (sem s) (history s).
Definition with_registry (x : gmap string nat) (s : System) : System :=
  MkSystem (mem s) (descs s) (counter s) x (xfers s) (calls s) (sem s) (history s).
Definition with_xfers (x : list transfer) (s : System) : System :=
  MkSystem (mem s) (descs s) (counter s) (registry s) x (calls s) (sem s) (history s).
Definition with_calls (x : list call) (s : System) : System :=
  MkSystem (mem s) (descs s) (counter s) (registry s) (xfers s) x (sem s) (history s).
Definition with_sem (x : nat) (s : System) : System :=
  MkSystem (mem s) (descs s) (counter s) (registry s) (xfers s) (calls s) x (history s).
Definition record (e : event) (s : System) : System :=
  MkSystem (mem s) (descs s) (counter s) (registry s) (xfers s) (calls s) (sem s)
    (history s ++ [e]).

Definition set_phase (p : phase) (t : transfer) : transfer :=
  MkTransfer (t_key t) (t_desc t) (t_parent t) (t_base t) p (t_calls t) (t_ctx t).
Definition count_call (t : transfer) : transfer :=
  MkTransfer (t_key t) (t_desc t) (t_parent t) (t_base t) (t_phase t) (S (t_calls t)) (t_ctx t).
Definition signal (t : transfer) : transfer :=
  MkTransfer (t_key t) (t_desc t) (t_parent t) (t_base t) (t_phase t) (t_calls t) true.

Definition upd_xfer (i : nat) (f : transfer -> transfer) (s : System) : System :=
  with_xfers (alter f i (xfers s)) s.
Definition upd_call (i : nat) (f : call -> call) (s : System) : System :=
  with_calls (alter f i (calls s)) s.
Definition upd_desc (i : nat) (f : descriptor -> descriptor) (s : System) : System :=
  with_descs (alter f i (descs s)) s.

Definition cancel_watcher (w : watcher) : watcher := MkWatcher (w_xfer w) true (w_released w).
Definition release_watcher (w : watcher) : watcher := MkWatcher (w_xfer w) (w_cancel w) true.

Definition set_watchers (ws : list watcher) (c : call) : call :=
  MkCall (c_ctx c) (c_initial c) (c_descs c) ws (c_pos c) (c_result c).
Definition set_result (r : exec (list DiffID)) (c : call) : call :=
  MkCall (c_ctx c) (c_initial c) (c_descs c) (c_watchers c) (c_pos c) (Some r).
Definition advance (c : call) : call :=
  MkCall (c_ctx c) (c_initial c) (c_descs c) (c_watchers c) (S (c_pos c)) (c_result c).
Definition cancel_ctx (c : call) : call :=
  MkCall true (c_initial c) (c_descs c) (cancel_watcher <$> c_watchers c) (c_pos c) (c_result c).

(** Modelled from the spec: the refcount of a transfer (section 3): the
    number of watchers attached to it and not released. *)
Definition attached (tid : nat) (w : watcher) : bool :=
  negb (w_released w) && bool_decide (w_xfer w = tid).

Definition all_watchers (s : System) : list watcher := mjoin (c_watchers <$> calls s).

Definition refcount (s : System) (tid : nat) : nat :=
  length (filter (fun w => attached tid w = true) (all_watchers s)).

(** Modelled from the spec: union cancellation (design 4.2, section 5):
    the worker's context is signalled when the watchers attached to the
    transfer are at least one and have all asked for cancellation; once
    signalled it stays so. *)
Definition all_cancelled (s : System) (tid : nat) : bool :=
  let ws := filter (fun w => attached tid w = true) (all_watchers s) in
  bool_decide (ws <> []) && forallb w_cancel ws.

Definition resignal (s : System) : System :=
  with_xfers (imap (fun tid t => if all_cancelled s tid then signal t else t) (xfers s)) s.

(** Modelled from the spec: [release(key, transfer, watcher)] of the
    registry (design 4.1): once the watchers are detached, a transfer that
    is terminal and has refcount zero is removed from the map. *)
Definition evict (tid : nat) (s : System) : System :=
  match xfers s !! tid with
  | Some t =>
    if terminal (t_phase t) && bool_decide (refcount s tid = 0)
       && bool_decide (registry s !! t_key t = Some tid)
    then with_registry (delete (t_key t) (registry s)) s
    else s
  | None => s
  end.

Definition release_all (c : nat) (s : System) : System :=
  let tids :=
    match calls s !! c with
    | Some cl => w_xfer <$> filter (fun w => w_released w = false) (c_watchers cl)
    | None => []
    end in
  foldr evict (upd_call c (fun cl => set_watchers (release_watcher <$> c_watchers cl) cl) s) tids.

(** Modelled from the spec: the error kinds of section 7 that the manager
    itself raises. *)
Definition errDownloadFailed : error := errors_New "download-failed".
Definition errInvalidDigest : error := errors_New "invalid digest".
Definition errParentFailed : error := errors_New "parent-failed".

(** Modelled from the spec: the failing return of [Download] (design 4.4
    and section 7): the error is [context.Canceled] if the caller's context
    was cancelled and else the error met; the watchers not yet waited for
    are cancelled and the call's pins are released. *)
Definition fail_mark (c : nat) (e : error) (s : System) : System :=
  upd_call c (fun cl =>
    set_result (Err (if c_ctx cl then Canceled else e))
      (set_watchers (imap (fun i w => if decide (c_pos cl < i) then cancel_watcher w else w)
                          (c_watchers cl)) cl)) s.

Definition fail_call (c : nat) (e : error) (s : System) : System :=
  release_all c (resignal (fail_mark c e s)).

(** The DiffID a finished transfer hands to its watchers. *)
Definition result_of (s : System) (w : watcher) : option DiffID :=
  match xfers s !! w_xfer w with
  | Some t => match t_phase t with Done _ d => Some d | _ => None end
  | None => None
  end.

(** The ChainID of the parent of a transfer, known once the parent is
    done; a transfer without parent has its base. *)
Definition parent_chain (s : System) (t : transfer) : option ChainID :=
  match t_parent t with
  | None => Some (t_base t)
  | Some p =>
    match xfers s !! p with
    | Some pt =>
      match t_phase pt with
      | Done l _ => chainID <$> objs (mem s) !! l
      | _ => None
      end
    | None => None
    end
  end.

(** Modelled from the spec: the steps of the system, missing with
    download.go and transfer.go.  Callers: [CallDownload] enters
    [Download], [CancelCtx] cancels the context of a running call,
    [Release] calls the release handle of a call that succeeded.  Manager
    (design 4.4): [Dispatch] consults the registry for the next descriptor,
    [Await] takes the completion of the next watcher, [CtxReturn] gives up a
    call whose context is cancelled, [Return] builds the root file system.
    Worker (design 4.3): [WStart] is step 1, [WAcquire] step 2, [WEnter],
    [WLeave] and [WLeaveCancelled] the entry into and the two ways out of
    [Descriptor.Download] in step 3 (with step 4 when the bytes are there),
    [WRegister] steps 5 to 7, [WAbort] the abort at a suspension point. *)
Inductive label : Type :=
| CallDownload (initial : list DiffID) (ds : list nat)
| CancelCtx (c : nat)
| Release (c : nat)
| Dispatch (c : nat)
| Await (c : nat)
| CtxReturn (c : nat)
| Return (c : nat)
| WStart (t : nat)
| WAcquire (t : nat)
| WEnter (t : nat)
| WLeave (t : nat)
| WLeaveCancelled (t : nat)
| WRegister (t : nat)
| WAbort (t : nat).

Section Manager.

Variable FromBytes : string -> exec Digest.

(** [NewLayerDownloadManager(store, maxConcurrency)], and the cap on the
    attempts of one download (design 4.3, step 3). *)
Variable maxConcurrency : nat.
Variable maxDownloadAttempts : nat.

(** Modelled from the spec: a caller enters [Download(ctx, initialRootFS,
    descriptors, progressSink)] of download.go; nothing is dispatched yet. *)
Definition step_call (initial : list DiffID) (ds : list nat) (s : System) : option System :=
  if forallb (fun a => bool_decide (a < length (descs s))) ds
  then Some (with_calls (calls s ++ [MkCall false initial ds [] 0 None]) s)
  else None.

(** Modelled from the spec: cancellation of the caller's context (section
    5): it reaches every watcher of the call. *)
Definition step_cancel (c : nat) (s : System) : option System :=
  match calls s !! c with
  | Some cl =>
    if bool_decide (c_result cl = None) && negb (c_ctx cl)
    then Some (resignal (upd_call c cancel_ctx s))
    else None
  | None => None
  end.

(** Modelled from the spec: the release handle returned by a successful
    [Download] (design 4.4); watchers already released are skipped, so that
    a second call changes nothing. *)
Definition step_release (c : nat) (s : System) : option System :=
  match calls s !! c with
  | Some cl =>
    match c_result cl with
    | Some (Ok _) => Some (release_all c s)
    | _ => None
    end
  | None => None
  end.

(** Modelled from the spec: [transfer(key, makeFn, watcher)] of the
    registry (design 4.1) for the next descriptor of the call (design 4.4):
    an entry that is not terminal with refcount zero gets the watcher
    attached; otherwise a transfer is made, its parent being the transfer
    of the previous descriptor (section 9), and inserted. *)
Definition step_dispatch (c : nat) (s : System) : option System :=
  match calls s !! c with
  | Some cl =>
    if bool_decide (c_result cl = None) then
      match c_descs cl !! length (c_watchers cl) with
      | Some a =>
        match descs s !! a with
        | Some d =>
          let key := mockDownloadDescriptor.Key d in
          let attach tid :=
            upd_call c (fun cl => set_watchers (c_watchers cl ++ [MkWatcher tid (c_ctx cl) false]) cl) in
          let found :=
            match registry s !! key with
            | Some tid =>
              match xfers s !! tid with
              | Some t =>
                if terminal (t_phase t) && bool_decide (refcount s tid = 0) then None
                else Some tid
              | None => None
              end
            | None => None
            end in
          match found with
          | Some tid => Some (resignal (attach tid s))
          | None =>
            match createChainIDFromParent FromBytes "" (c_initial cl) with
            | Ok base =>
              let tid := length (xfers s) in
              let t := MkTransfer key a (w_xfer <$> last (c_watchers cl)) base Start 0 false in
              Some (resignal (attach tid
                      (with_registry (<[key := tid]> (registry s))
                         (with_xfers (xfers s ++ [t]) s))))
            | _ => None
            end
          end
        | None => None
        end
      | None => None
      end
    else None
  | None => None
  end.

(** Modelled from the spec: the manager takes the completion of the next
    watcher, in order (design 4.4).  A watcher that did not make the
    transfer gets its own notification: its descriptor's expected DiffID is
    verified and its [Registered] called (design 4.3, tie-break). *)
Definition step_await (c : nat) (s : System) : option System :=
  match calls s !! c with
  | Some cl =>
    if bool_decide (c_result cl = None)
       && bool_decide (length (c_watchers cl) = length (c_descs cl)) then
      match c_watchers cl !! c_pos cl, c_descs cl !! c_pos cl with
      | Some w, Some a =>
        match xfers s !! w_xfer w, descs s !! a with
        | Some t, Some d =>
          match t_phase t with
          | Done _ diff =>
            if bool_decide (a = t_desc t) then Some (upd_call c advance s)
            else if bool_decide (mockDownloadDescriptor.expectedDiffID d <> "")
                    && negb (bool_decide (mockDownloadDescriptor.expectedDiffID d = diff))
            then Some (fail_call c errInvalidDigest s)
            else Some (upd_call c advance
                         (record (EvRegistered a diff)
                            (upd_desc a (fun d => mockDownloadDescriptor.Registered d diff) s)))
          | Failed e => Some (fail_call c e s)
          | Cancelled => Some (fail_call c Canceled s)
          | _ => None
          end
        | _, _ => None
        end
      | _, _ => None
      end
    else None
  | None => None
  end.

(** Modelled from the spec: a call whose context is cancelled returns
    [context.Canceled] (design 4.4) without waiting further. *)
Definition step_ctx_return (c : nat) (s : System) : option System :=
  match calls s !! c with
  | Some cl =>
    if bool_decide (c_result cl = None) && c_ctx cl
       && bool_decide (length (c_watchers cl) = length (c_descs cl))
    then Some (fail_call c Canceled s)
    else None
  | None => None
  end.

(** Modelled from the spec: on success the output extends
    [initialRootFS.DiffIDs] with each transfer's resulting DiffID in input
    order (design 4.4). *)
Definition step_return (c : nat) (s : System) : option System :=
  match calls s !! c with
  | Some cl =>
    if bool_decide (c_result cl = None)
       && bool_decide (length (c_watchers cl) = length (c_descs cl))
       && bool_decide (c_pos cl = length (c_watchers cl)) then
      match mapM (result_of s) (c_watchers cl) with
      | Some ds => Some (upd_call c (set_result (Ok (c_initial cl ++ ds))) s)
      | None => None
      end
    else None
  | None => None
  end.

(** Modelled from the spec: step 1 of the worker, the already-known
    shortcut; it can be taken when the ChainID of the parent is known. *)
Definition step_start (tid : nat) (s : System) : option System :=
  match xfers s !! tid with
  | Some t =>
    match t_phase t, descs s !! t_desc t with
    | Start, Some d =>
      let download := Some (upd_xfer tid (set_phase WaitSlot) s) in
      match mockDownloadDescriptor.DiffID d, parent_chain s t with
      | Ok diff, Some pc =>
        match createChainIDFromParent FromBytes pc [diff] with
        | Ok chain =>
          match Get chain (mem s) with
          | (Ok l, _) =>
            Some (upd_xfer tid (set_phase (Done l diff))
                    (record (EvRegistered (t_desc t) diff)
                       (upd_desc (t_desc t) (fun d => mockDownloadDescriptor.Registered d diff) s)))
          | _ => download
          end
        | _ => None
        end
      | _, _ => download
      end
    | _, _ => None
    end
  | None => None
  end.

(** Modelled from the spec: step 2, a slot of the semaphore of capacity
    [maxConcurrency] (section 5). *)
Definition step_acquire (tid : nat) (s : System) : option System :=
  match xfers s !! tid with
  | Some t =>
    match t_phase t with
    | WaitSlot =>
      if negb (t_ctx t) && bool_decide (sem s < maxConcurrency)
      then Some (with_sem (S (sem s)) (upd_xfer tid (set_phase Ready) s))
      else None
    | _ => None
    end
  | None => None
  end.

(** Modelled from the spec: step 3, the worker calls
    [descriptor.Download]; a call after the first is a retry and is made
    only if the backoff sleep was not cut short by the context. *)
Definition step_enter (tid : nat) (s : System) : option System :=
  match xfers s !! tid with
  | Some t =>
    match t_phase t, descs s !! t_desc t with
    | Ready, Some d =>
      if bool_decide (t_calls t = 0) || negb (t_ctx t) then
        let '(c, deferred, over) := mockDownloadDescriptor.Download_enter d (counter s) in
        Some (record (EvDownload tid (t_desc t))
                (with_counter c
                   (upd_xfer tid (fun t => count_call (set_phase (InDownload deferred over) t)) s)))
      else None
    | _, _ => None
    end
  | None => None
  end.

(** Modelled from the spec: [Download] returns after its loop (step 3): on
    an error the worker retries while attempts remain and else fails; with
    the stream it gives the slot back (step 4). *)
Definition step_leave (tid : nat) (s : System) : option System :=
  match xfers s !! tid with
  | Some t =>
    match t_phase t, descs s !! t_desc t with
    | InDownload deferred over, Some d =>
      let '(d', r) :=
        if over then (d, Err (errors_New "concurrency limit exceeded"))
        else mockDownloadDescriptor.Download_finish d in
      let s1 := with_counter (mockDownloadDescriptor.Download_deferred deferred (counter s))
                  (upd_desc (t_desc t) (fun _ => d') s) in
      match r with
      | Ok stream =>
        Some (with_sem (pred (sem s)) (upd_xfer tid (set_phase (AwaitParent stream)) s1))
      | _ =>
        if bool_decide (t_calls t < maxDownloadAttempts)
        then Some (upd_xfer tid (set_phase Ready) s1)
        else Some (with_sem (pred (sem s)) (upd_xfer tid (set_phase (Failed errDownloadFailed)) s1))
      end
    | _, _ => None
    end
  | None => None
  end.

(** Modelled from the spec: [Download] finds the context done in its loop
    and returns [ctx.Err()]; the worker terminates as cancelled (step 3). *)
Definition step_leave_cancelled (tid : nat) (s : System) : option System :=
  match xfers s !! tid with
  | Some t =>
    match t_phase t with
    | InDownload deferred false =>
      if t_ctx t then
        Some (with_sem (pred (sem s))
                (with_counter (mockDownloadDescriptor.Download_deferred deferred (counter s))
                   (upd_xfer tid (set_phase Cancelled) s)))
      else None
    | _ => None
    end
  | None => None
  end.

(** Modelled from the spec: steps 5 to 7: once the parent is over, fail
    if it failed, else [store.Register(stream, parent.ChainID)], verify the
    expected DiffID, call [Registered] and finish. *)
Definition step_register (tid : nat) (s : System) : option System :=
  match xfers s !! tid with
  | Some t =>
    match t_phase t, descs s !! t_desc t with
    | AwaitParent stream, Some d =>
      if t_ctx t then None
      else
        let parent_over :=
          match t_parent t with
          | None => Some true
          | Some p =>
            match xfers s !! p with
            | Some pt =>
              if terminal (t_phase pt)
              then Some (match t_phase pt with Done _ _ => true | _ => false end)
              else None
            | None => None
            end
          end in
        match parent_over with
        | Some false => Some (upd_xfer tid (set_phase (Failed errParentFailed)) s)
        | Some true =>
          match parent_chain s t with
          | Some pc =>
            match Register FromBytes stream pc (mem s) with
            | (Ok l, m') =>
              match objs m' !! l with
              | Some o =>
                let s1 := record (EvRegister tid l) (with_mem m' s) in
                if bool_decide (mockDownloadDescriptor.expectedDiffID d <> "")
                   && negb (bool_decide (mockDownloadDescriptor.expectedDiffID d = diffID o))
                then Some (upd_xfer tid (set_phase (Failed errInvalidDigest)) s1)
                else Some (upd_xfer tid (set_phase (Done l (diffID o)))
                             (record (EvRegistered (t_desc t) (diffID o))
                                (upd_desc (t_desc t)
                                   (fun d => mockDownloadDescriptor.Registered d (diffID o)) s1)))
              | None => None
              end
            | (Err e, m') => Some (upd_xfer tid (set_phase (Failed e)) (with_mem m' s))
            | (Panic _, _) => None
            end
          | None => None
          end
        | None => None
        end
    | _, _ => None
    end
  | None => None
  end.

(** Modelled from the spec: a worker suspended on the semaphore, in the
    backoff sleep or on its parent finds its context signalled and aborts
    as cancelled (section 5, suspension points). *)
Definition step_abort (tid : nat) (s : System) : option System :=
  match xfers s !! tid with
  | Some t =>
    if t_ctx t then
      match t_phase t with
      | WaitSlot | AwaitParent _ => Some (upd_xfer tid (set_phase Cancelled) s)
      | Ready => Some (with_sem (pred (sem s)) (upd_xfer tid (set_phase Cancelled) s))
      | _ => None
      end
    else None
  | None => None
  end.

Definition step (l : label) (s : System) : option System :=
  match l with
  | CallDownload initial ds => step_call initial ds s
  | CancelCtx c => step_cancel c s
  | Release c => step_release c s
  | Dispatch c => step_dispatch c s
  | Await c => step_await c s
  | CtxReturn c => step_ctx_return c s
  | Return c => step_return c s
  | WStart t => step_start t s
  | WAcquire t => step_acquire t s
  | WEnter t => step_enter t s
  | WLeave t => step_leave t s
  | WLeaveCancelled t => step_leave_cancelled t s
  | WRegister t => step_register t s
  | WAbort t => step_abort t s
  end.

(** A schedule, run from a state; [None] when a step is not enabled. *)
Fixpoint run (ls : list label) (s : System) : option System :=
  match ls with
  | [] => Some s
  | l :: ls' =>
    match step l s with
    | Some s' => run ls' s'
    | None => None
    end
  end.

(** The states the system reaches from [s0]. *)
Inductive reachable (s0 : System) : System -> Prop :=
| reach_init : reachable s0 s0
| reach_step l s s' : reachable s0 s -> step l s = Some s' -> reachable s0 s'.

End Manager.

(** A process that has a layer store and descriptors and has not called
    the manager yet; the counter of the tests starts at zero. *)
Definition boot (m : Mem) (ds : list descriptor) : System :=
  MkSystem m ds 0 ∅ [] [] 0 [].

(** ** The OneView profile lookup (package ov) *)

Module OV.

(** [type ServerProfile struct] *)
Record ServerProfile : Type := MkServerProfile {
  Type_ : string;
  URI : string;
  Name : string;
  Description : string;
  SerialNumber : string;
  UUID : string;
  ServerHardwareURI : string;
  ServerHardwareTypeURI : string;
  EnclosureGroupURI : string;
  EnclosureURI : string;
  EnclosureBay : Z;
  Affinity : string;
  Created : string;
  Modified : string;
  Status : string;
  State : string;
  InProgress : bool;
  TaskURI : string;
  ETAG : string
}.

(** [type ServerProfileList struct]; its [URI] field is [ListURI] here. *)
Record ServerProfileList : Type := MkServerProfileList {
  Total : Z;
  Count : Z;
  Start : Z;
  PrevPageURI : string;
  NextPageURI : string;
  ListURI : string;
  Members : list ServerProfile
}.

(** Zero values of the two structs ([var profile ServerProfile],
    [var profiles ServerProfileList]). *)
Definition zero_ServerProfile : ServerProfile :=
  MkServerProfile "" "" "" "" "" "" "" "" "" "" 0 "" "" "" "" "" false "" "".

Definition zero_ServerProfileList : ServerProfileList :=
  MkServerProfileList 0 0 0 "" "" "" [].

(** What a call of [GetProfileNameBySN] does: it returns its pair
    [(ServerProfile, error)], the error being nil or not, or it panics. *)
Inductive result : Type :=
| Returned (profile : ServerProfile) (err : option error)
| Panicked (e : error).

Section WithClient.

(** The embedded [rest.Client], the logger and [encoding/json] are outside
    the files studied here.  [World] is the state they act on: the client
    object, the log and the appliance behind the REST endpoint. *)
Variable World : Type.
Variable Method : Type.
Variable GET : Method.
Variable Options : Type.
Variable RefreshLogin : World -> World.
Variable GetAuthHeaderMap : World -> gmap string string.
Variable SetAuthHeaderOptions : gmap string string -> World -> World.
Variable SetQueryString : gmap string string -> World -> World.
Variable RestAPICall :
  Method -> string -> option Options -> World -> (string * option error) * World.
Variable Debugf : string -> string -> World -> World.

(** [json.Unmarshal(data, &profiles)]: the value left in [profiles] and the
    error returned. *)
Variable Unmarshal : string -> ServerProfileList -> ServerProfileList * option error.

(** [func (c *OVClient) GetProfileNameBySN(serialnum string) (ServerProfile, error)] *)
Definition GetProfileNameBySN (serialnum : string) (c : World) : result * World :=
  let uri := "/rest/server-profiles" in
  let q : gmap string string :=
    {[ "filter" := "serialNumber matches '" +:+ serialnum +:+ "'";
       "sort" := "name:asc" ]} in
  let profile := zero_ServerProfile in
  let profiles := zero_ServerProfileList in
  (* refresh login *)
  let c := RefreshLogin c in
  let c := SetAuthHeaderOptions (GetAuthHeaderMap c) c in
  (* Setup query *)
  let c := SetQueryString q c in
  let '((data, err), c) := RestAPICall GET uri None c in
  match err with
  | Some err => (Returned profile (Some err), c)
  | None =>
    let c := Debugf "GetProfileNameBySN %s" data c in
    let '(profiles, err) := Unmarshal data profiles in
    match err with
    | Some err => (Returned profile (Some err), c)
    | None =>
      if (Total profiles >? 0)%Z then
        match Members profiles with
        | m :: _ => (Returned m None, c)
        | [] => (Panicked (errors_New "runtime error: index out of range [0] with length 0"), c)
        end
      else (Returned profile None, c)
    end
  end.

End WithClient.

End OV.


(** ** Predicates on the states of the manager *)

(** What a step may change in a transfer: the key, the descriptor, the
    parent and the base are fixed, the calls of [Download] only grow, a
    signalled context stays signalled, and a terminal transfer stays as it
    is. *)
Definition xfer_le (t t' : transfer) : Prop :=
  t_key t' = t_key t /\ t_desc t' = t_desc t /\ t_parent t' = t_parent t /\
  t_base t' = t_base t /\ t_calls t <= t_calls t' /\
  (t_ctx t = true -> t_ctx t' = true) /\
  (terminal (t_phase t) = true -> t_phase t' = t_phase t /\ t_calls t' = t_calls t).

Definition xl_le (l l' : list transfer) : Prop :=
  forall tid t, l !! tid = Some t -> exists t', l' !! tid = Some t' /\ xfer_le t t'.

(** The number of transfers whose phase satisfies [p]. *)
Fixpoint tally (p : phase -> bool) (l : list transfer) : nat :=
  match l with
  | [] => 0
  | t :: l' => (if p (t_phase t) then 1 else 0) + tally p l'
  end.

(** The number of tasks inside [Descriptor.Download]. *)
Definition downloading (s : System) : nat := tally in_download (xfers s).

(** Calls of [Download] that incremented the counter of the tests and
    deferred its decrement, and calls that found the limit exceeded. *)
Definition counted (p : phase) : bool :=
  match p with InDownload true _ => true | _ => false end.

Definition tripped (p : phase) : bool :=
  match p with InDownload _ true => true | _ => false end.

(** The part of a descriptor that no method changes. *)
Definition desc_static (d : descriptor) : bool * string * string * string :=
  (mockDownloadDescriptor.currentDownloads d, mockDownloadDescriptor.id d,
   mockDownloadDescriptor.diffID d, mockDownloadDescriptor.expectedDiffID d).

Definition statics (s : System) : list (bool * string * string * string) :=
  desc_static <$> descs s.

(** Well-formed states: a call has at most one watcher per descriptor, in
    order, waits only once all are dispatched, and releases nothing before
    it is over; descriptors and transfers referred to exist; a transfer
    carries the key of the descriptor it was made for; the registry files
    a transfer under its key. *)
Definition wf_call (nx nd : nat) (cl : call) : Prop :=
  Forall (fun a => a < nd) (c_descs cl) /\
  Forall (fun w => w_xfer w < nx) (c_watchers cl) /\
  length (c_watchers cl) <= length (c_descs cl) /\
  c_pos cl <= length (c_watchers cl) /\
  (0 < c_pos cl -> length (c_watchers cl) = length (c_descs cl)) /\
  (c_result cl = None -> Forall (fun w => w_released w = false) (c_watchers cl)) /\
  (forall r, c_result cl = Some (Ok r) ->
     c_pos cl = length (c_watchers cl) /\ length (c_watchers cl) = length (c_descs cl)).

Definition static_id (st : bool * string * string * string) : string := st.1.1.2.
Definition static_diffID (st : bool * string * string * string) : string := st.1.2.

Definition wf_xfer (sts : list (bool * string * string * string)) (t : transfer) : Prop :=
  exists st, sts !! t_desc t = Some st /\ static_id st = t_key t.

Definition wf (s : System) : Prop :=
  Forall (wf_call (length (xfers s)) (length (descs s))) (calls s) /\
  Forall (wf_xfer (statics s)) (xfers s) /\
  (forall K tid, registry s !! K = Some tid ->
     exists t, xfers s !! tid = Some t /\ t_key t = K).

(** Every watcher that is still attached finds its transfer in the
    registry, under the key of the transfer. *)
Definition registered_watchers (s : System) : Prop :=
  forall c cl k w, calls s !! c = Some cl -> c_watchers cl !! k = Some w ->
    w_released w = false ->
    exists t, xfers s !! w_xfer w = Some t /\ registry s !! t_key t = Some (w_xfer w).

(** What a call is attached to: its descriptors and, in dispatch order,
    the transfers its watchers are on. *)
Definition attachments (cl : call) : list nat * list nat :=
  (c_descs cl, w_xfer <$> c_watchers cl).

(** The transfer that serves a descriptor of a call has the key of the
    descriptor. *)
Definition keyed (s : System) : Prop :=
  forall c ds ws k a tid,
    (attachments <$> calls s) !! c = Some (ds, ws) ->
    ds !! k = Some a -> ws !! k = Some tid ->
    exists t st, xfers s !! tid = Some t /\ statics s !! a = Some st /\
      t_key t = static_id st.

(** Within a call, transfers with the same key are the same transfer. *)
Definition shared (s : System) : Prop :=
  forall c ds ws j k tj tk xj xk,
    (attachments <$> calls s) !! c = Some (ds, ws) ->
    ws !! j = Some tj -> ws !! k = Some tk ->
    xfers s !! tj = Some xj -> xfers s !! tk = Some xk ->
    t_key xj = t_key xk -> tj = tk.

(** The history accounts for the transfers: [Download] is only called on
    the descriptor the transfer was made for, and a worker that called
    [Register] ended as done or failed on the digest. *)
Definition download_owner (s : System) : Prop :=
  forall t a, EvDownload t a ∈ history s ->
    exists x, xfers s !! t = Some x /\ t_desc x = a.

Definition registered_ended (s : System) : Prop :=
  forall t l, EvRegister t l ∈ history s ->
    exists x, xfers s !! t = Some x /\
      ((exists d, t_phase x = Done l d) \/ t_phase x = Failed errInvalidDigest).

Definition download_bound (maxDownloadAttempts : nat) : nat := max 1 maxDownloadAttempts.

(** The number of calls of [Download] that the history holds for the
    worker of transfer [t]. *)
Definition is_download (t : nat) (e : event) : bool :=
  match e with EvDownload t' _ => bool_decide (t' = t) | _ => false end.

Fixpoint downloads (t : nat) (h : list event) : nat :=
  match h with
  | [] => 0
  | e :: h' => (if is_download t e then 1 else 0) + downloads t h'
  end.

(** The bytes of the mock tar stream of a descriptor with ID [k]. *)
Definition tar (k : string) : string := k +:+ k +:+ k +:+ k +:+ k.

(** What holds of every transfer [x], number [tid], given the history [h]
    and the static parts [sts] of the descriptors: only a signalled worker
    is cancelled; a finished transfer has called [Registered] on its
    descriptor with its DiffID; the history holds as many calls of
    [Download] as the transfer counts, at most the bound, none before a slot
    is held; the bytes awaiting registration are the tar stream of the key;
    and the DiffID of a finished transfer is either the digest of that
    stream, registered by this worker as the layer it holds, or the DiffID
    the descriptor knew beforehand. *)
Definition xfer_ok (FromBytes : string -> exec Digest) (maxDownloadAttempts : nat)
    (h : list event) (sts : list (bool * string * string * string))
    (tid : nat) (x : transfer) : Prop :=
  (t_phase x = Cancelled -> t_ctx x = true) /\
  (forall l d, t_phase x = Done l d -> EvRegistered (t_desc x) d ∈ h) /\
  downloads tid h = t_calls x /\
  t_calls x <= download_bound maxDownloadAttempts /\
  (t_phase x = Ready -> t_calls x = 0 \/ t_calls x < maxDownloadAttempts) /\
  (t_phase x = Start \/ t_phase x = WaitSlot -> t_calls x = 0) /\
  (forall r, t_phase x = AwaitParent r -> r = NewBuffer (tar (t_key x))) /\
  (forall l d, t_phase x = Done l d ->
     (FromBytes (tar (t_key x)) = Ok d /\ EvRegister tid l ∈ h) \/
     (exists st, sts !! t_desc x = Some st /\ static_diffID st = d /\ d <> "")).

Definition xfers_ok (FromBytes : string -> exec Digest) (maxDownloadAttempts : nat)
    (s : System) : Prop :=
  forall tid x, xfers s !! tid = Some x ->
    xfer_ok FromBytes maxDownloadAttempts (history s) (statics s) tid x.

(** The DiffID that the transfers [xs] hold for a watcher. *)
Definition result_in (xs : list transfer) (w : watcher) : option DiffID :=
  match xs !! w_xfer w with
  | Some t => match t_phase t with Done _ d => Some d | _ => None end
  | None => None
  end.

(** What holds of every call, given the transfers and the history: a
    root file system returned is the initial one followed by the DiffIDs of
    the transfers of the watchers, in order; every watcher already waited
    for is on a finished transfer, and [Registered] was called on its
    descriptor with the DiffID of that transfer; and a call whose context
    was cancelled fails with [context.Canceled] only. *)
Definition call_ok (xs : list transfer) (h : list event) (cl : call) : Prop :=
  (forall r, c_result cl = Some (Ok r) ->
     exists ds, r = c_initial cl ++ ds /\
       Forall2 (fun w d => result_in xs w = Some d) (c_watchers cl) ds) /\
  (forall k w a, k < c_pos cl -> c_watchers cl !! k = Some w -> c_descs cl !! k = Some a ->
     exists d, result_in xs w = Some d /\ EvRegistered a d ∈ h) /\
  (forall e, c_ctx cl = true -> c_result cl = Some (Err e) -> e = Canceled).

Definition calls_ok (s : System) : Prop :=
  Forall (call_ok (xfers s) (history s)) (calls s).

(** A call whose context is cancelled has asked each of its watchers for
    cancellation. *)
Definition ctx_watchers (s : System) : Prop :=
  forall c cl, calls s !! c = Some cl -> c_ctx cl = true ->
    Forall (fun w => w_cancel w = true) (c_watchers cl).

(** Union cancellation: a transfer whose attached watchers have all asked
    for cancellation has its worker's context signalled, unless it was over
    before. *)
Definition union_cancelled (s : System) : Prop :=
  forall tid x, xfers s !! tid = Some x -> all_cancelled s tid = true ->
    t_ctx x = true \/ terminal (t_phase x) = true.


(** ** The methods of a mock layer *)

Module ml.

(** [func (ml *mockLayer) TarStream() (io.ReadCloser, error)]: a fresh
    reader over the bytes held, and no error. *)
Definition TarStream (ml : loc) : M Reader :=
  o <- deref ml ;; ret (NewBuffer (layerData o)).

(** [func (ml *mockLayer) ChainID() layer.ChainID] *)
Definition ChainID (ml : loc) : M string :=
  o <- deref ml ;; ret (chainID o).

(** [func (ml *mockLayer) DiffID() layer.DiffID] *)
Definition DiffID (ml : loc) : M string :=
  o <- deref ml ;; ret (diffID o).

(** [func (ml *mockLayer) Parent() layer.Layer] *)
Definition Parent (ml : loc) : M (option loc) :=
  o <- deref ml ;; ret (parent o).

(** [func (ml *mockLayer) Size() (size int64, err error)] *)
Definition Size (ml : loc) : M Z := ret 0%Z.

(** [func (ml *mockLayer) DiffSize() (size int64, err error)] *)
Definition DiffSize (ml : loc) : M Z := ret 0%Z.

(** [func (ml *mockLayer) Metadata() (map[string]string, error)] *)
Definition Metadata (ml : loc) : M (gmap string string) := ret ∅.

End ml.

(** ** The other methods of the mock store *)

Module store.

(** [func (ls *mockLayerStore) Release(l layer.Layer) ([]layer.Metadata, error)];
    [layer.Metadata] is a struct of the layer package, of which only the
    empty slice occurs. *)
Definition Release {Metadata : Type} (l : option loc) : M (list Metadata) := ret [].

(** [func (ls *mockLayerStore) Cleanup() error] *)
Definition Cleanup : M unit := ret tt.

End store.

(** ** Predicates on the memory of the store *)

(** [stack FromBytes os l ds]: in the heap [os] the layer at [l] and its
    ancestors exist, each holds as DiffID the digest of its bytes, and their
    DiffIDs are [ds], from the root down to [l]. *)
Inductive stack (FromBytes : string -> exec Digest) (os : list mockLayer) :
    loc -> list DiffID -> Prop :=
| stack_root l o :
    os !! l = Some o -> parent o = None ->
    FromBytes (layerData o) = Ok (diffID o) ->
    stack FromBytes os l [diffID o]
| stack_child l o p ds :
    os !! l = Some o -> parent o = Some p ->
    FromBytes (layerData o) = Ok (diffID o) ->
    stack FromBytes os p ds ->
    stack FromBytes os l (ds ++ [diffID o]).

(** The store answers every ChainID it holds with a layer that carries
    this ChainID, and the ChainID is the chain of the DiffIDs of the layer's
    stack. *)
Definition store_ok (FromBytes : string -> exec Digest) (m : Mem) : Prop :=
  forall c l, layers (ls m) !! c = Some l ->
    exists o ds, objs m !! l = Some o /\ chainID o = c /\
      stack FromBytes (objs m) l ds /\
      createChainIDFromParent FromBytes "" ds = Ok c.

(** A call of a method of the store, and the memory that a sequence of
    calls leaves. *)
Inductive store_call : Type :=
| CallRegister (reader : Reader) (parentID : ChainID)
| CallGet (chainID : ChainID)
| CallRelease (l : option loc)
| CallCleanup.

Definition after_call (FromBytes : string -> exec Digest) (m : Mem) (c : store_call) : Mem :=
  match c with
  | CallRegister reader parentID => (Register FromBytes reader parentID m).2
  | CallGet chainID => (Get chainID m).2
  | CallRelease l => (@store.Release unit l m).2
  | CallCleanup => (store.Cleanup m).2
  end.

Definition after_calls (FromBytes : string -> exec Digest) (m : Mem)
    (cs : list store_call) : Mem :=
  foldl (after_call FromBytes) m cs.

(** ** Calls of [Download] in sequence *)

(** [k] calls of [Download] on a descriptor, one after the other and none
    with a cancelled context: the descriptor and the counter after the last
    call, and what the calls returned, in order. *)
Fixpoint Download_times (k : nat) (d : descriptor) (counter : Z) :
    descriptor * Z * list (exec Reader) :=
  match k with
  | 0 => (d, counter, [])
  | S k' =>
    let '(d1, c1, r) := mockDownloadDescriptor.Download d None counter in
    let '(d2, c2, rs) := Download_times k' d1 c1 in
    (d2, c2, r :: rs)
  end.

(** ** Example stores *)

(** The pre-registration of [TestSuccessfulDownload]: the tar stream of the
    first descriptor is registered without parent in an empty store; then
    the stream of the second descriptor on top of it. *)
Definition id1_stream : Reader := NewBuffer "id1id1id1id1id1".
Definition id2_stream : Reader := NewBuffer "id2id2id2id2id2".

Definition id1_diffID : DiffID :=
  "sha256:68e2c75dc5c78ea9240689c60d7599766c213ae210434c53af18470ae8c53ec1".

Definition preregistered : Mem :=
  (Register Sha256.FromBytes id1_stream "" empty_store).2.

Definition two_layers : Mem :=
  (Register Sha256.FromBytes id2_stream id1_diffID preregistered).2.

(** A reader that yields three bytes and then fails. *)
Definition broken_stream : Reader := MkReader "id1" (Some (errors_New "unexpected EOF")).

(** ** Example clients of the OneView lookup *)

(** A client for examples: its world is the answer the appliance will give
    to the next REST call and the trace of what was called on the client.
    The decoder knows three documents by name, and fails on any other. *)
Module OVExample.

Record World : Type := MkWorld {
  answer : string * option error;
  trace : list string
}.

Definition called (what : string) (w : World) : World :=
  MkWorld (answer w) (trace w ++ [what]).

Definition RefreshLogin (w : World) : World := called "RefreshLogin" w.
Definition GetAuthHeaderMap (w : World) : gmap string string := {[ "auth" := "token" ]}.
Definition SetAuthHeaderOptions (h : gmap string string) (w : World) : World :=
  called "SetAuthHeaderOptions" w.
Definition SetQueryString (q : gmap string string) (w : World) : World :=
  called ("SetQueryString " +:+ default "" (q !! "filter")) w.
Definition RestAPICall (meth : unit) (uri : string) (o : option unit) (w : World) :
    (string * option error) * World :=
  (answer w, called ("RestAPICall " +:+ uri) w).
Definition Debugf (fmt data : string) (w : World) : World := called "Debugf" w.

Definition named (n : string) : OV.ServerProfile :=
  OV.MkServerProfile "ServerProfileV4" "" n "" "" "" "" "" "" "" 16 "" "" "" "" "" false "" "".

Definition Unmarshal (data : string) (p : OV.ServerProfileList) :
    OV.ServerProfileList * option error :=
  if decide (data = "no profile") then (p, None)
  else if decide (data = "one profile") then
    (OV.MkServerProfileList 1 1 0 "" "" "" [named "Server_Profile_scs79"], None)
  else if decide (data = "one profile, no members") then
    (OV.MkServerProfileList 1 0 0 "" "" "" [], None)
  else if decide (data = "members, total zero") then
    (OV.MkServerProfileList 0 1 0 "" "" "" [named "Server_Profile_scs79"], None)
  else (p, Some (errors_New "invalid character"))%string.

Definition GetProfileNameBySN : string -> World -> OV.result * World :=
  OV.GetProfileNameBySN World unit tt unit RefreshLogin GetAuthHeaderMap
    SetAuthHeaderOptions SetQueryString RestAPICall Debugf Unmarshal.

Definition appliance (data : string) (err : option error) : World :=
  MkWorld (data, err) [].

End OVExample.
(** * Properties *)

(** ** The monad *)

Section XferFacts.

Variable FromBytes : string -> exec Digest.

Lemma createChainIDFromParent_cons parent d rest :
  createChainIDFromParent FromBytes parent (d :: rest) =
  match createChainIDFromParent FromBytes parent [d] with
  | Ok c => createChainIDFromParent FromBytes c rest
  | r => r
  end.
Proof.
  simpl. destruct (decide (parent = "")); [done|].
  by destruct (FromBytes _).
Qed.

(** C1. The chain ID of a layer with parent chain [P] and DiffID [D] is [D]
    when [P] is empty and otherwise the digest of [P], one space and [D];
    a root layer's chain ID is its DiffID, and over a list of DiffIDs the
    function applies this step from left to right. *)
Theorem chain_id_construction (P : ChainID) (D : DiffID) (rest : list DiffID) :
  createChainIDFromParent FromBytes "" [D] = Ok D /\
  createChainIDFromParent FromBytes P [D] =
    (if decide (P = "") then Ok D
     else match FromBytes (P +:+ " " +:+ D) with
          | Ok h => Ok h
          | Err e | Panic e => Panic e
          end) /\
  createChainIDFromParent FromBytes P [] = Ok P /\
  createChainIDFromParent FromBytes P (D :: rest) =
    match createChainIDFromParent FromBytes P [D] with
    | Ok c => createChainIDFromParent FromBytes c rest
    | r => r
    end.
Proof.
  split; [done|]. split.
  - simpl. destruct (decide (P = "")); [done|]. by destruct (FromBytes _).
  - split; [done|]. apply createChainIDFromParent_cons.
Qed.

(** *** The layer store *)

Lemma alter_last (f : mockLayer -> mockLayer) (l : list mockLayer) x :
  alter f (length l) (l ++ [x]) = l ++ [f x].
Proof. by rewrite (alter_app_r_alt f l [x]) by lia; rewrite Nat.sub_diag. Qed.

Lemma lookup_last (l : list mockLayer) x : (l ++ [x]) !! length l = Some x.
Proof. by rewrite list_lookup_middle. Qed.

(** [Register], run. *)
Lemma Register_unfold reader parentID m :
  Register FromBytes reader parentID m =
  match resolve_parent parentID m with
  | Ok par =>
    let l := length (objs m) in
    let grown o := MkMem (objs m ++ [o]) (ls m) in
    match r_err reader with
    | Some e => (Err e, grown (MockLayer (r_bytes reader) "" "" par))
    | None =>
      match FromBytes (r_bytes reader) with
      | Ok d =>
        match createChainIDFromParent FromBytes parentID [d] with
        | Ok c => (Ok l, MkMem (objs m ++ [MockLayer (r_bytes reader) d c par])
                               (MockLayerStore (<[c := l]> (layers (ls m)))))
        | Err e => (Err e, grown (MockLayer (r_bytes reader) d "" par))
        | Panic e => (Panic e, grown (MockLayer (r_bytes reader) d "" par))
        end
      | Err e => (Err e, grown (MockLayer (r_bytes reader) "" "" par))
      | Panic e => (Panic e, grown (MockLayer (r_bytes reader) "" "" par))
      end
    end
  | Err e => (Err e, m)
  | Panic e => (Panic e, m)
  end.
Proof.
  destruct m as [os [lm]].
  unfold Register, resolve_parent, ReadFrom, Get, bind, ret, lift, new_mockLayer,
    set_diffID, set_chainID, layers_store, deref, update; simpl.
  destruct (decide (parentID = "")) as [->|Hne]; simpl;
    [|destruct (lm !! parentID) as [p|]; simpl; [|done]];
    rewrite alter_last; simpl;
    change ("" +:+ r_bytes reader) with (r_bytes reader);
    (destruct (r_err reader) as [e|]; simpl; [done|]);
    rewrite lookup_last; simpl;
    (destruct (FromBytes (r_bytes reader)) as [d| |]; simpl; try done);
    rewrite ?alter_last; simpl; try done.
  destruct (decide (parentID = "")); [done|].
  destruct (FromBytes (parentID +:+ _)); simpl; try done.
  by rewrite !alter_last.
Qed.

Lemma Register_Ok_inv reader parentID m l m' :
  Register FromBytes reader parentID m = (Ok l, m') ->
  exists d c par,
    resolve_parent parentID m = Ok par /\
    r_err reader = None /\
    FromBytes (r_bytes reader) = Ok d /\
    createChainIDFromParent FromBytes parentID [d] = Ok c /\
    l = length (objs m) /\
    m' = MkMem (objs m ++ [MockLayer (r_bytes reader) d c par])
               (MockLayerStore (<[c := l]> (layers (ls m)))).
Proof.
  rewrite Register_unfold.
  destruct (resolve_parent parentID m) as [par| |] eqn:Hpar; [|done..].
  destruct (r_err reader) eqn:Herr; [done|].
  destruct (FromBytes (r_bytes reader)) as [d| |] eqn:Hd; [|done..].
  destruct (createChainIDFromParent FromBytes parentID [d]) as [c| |] eqn:Hc; [|done..].
  intros [= <- <-]. exists d, c, par. repeat split; done.
Qed.

(** C3. A successful [Register] returns a layer that holds exactly the
    bytes the reader yielded, whose DiffID is their digest and whose ChainID
    is built from the given parent ChainID and that DiffID by the chain
    formula, and the store maps the ChainID to it.  With a non-empty parent
    ChainID that the store does not hold, [Register] fails with the store's
    not-found error and leaves the memory, hence the mapping, as it was. *)
Theorem Register_postcondition reader parentID m :
  (forall l m', Register FromBytes reader parentID m = (Ok l, m') ->
     exists o, objs m' !! l = Some o /\
       r_err reader = None /\
       layerData o = r_bytes reader /\
       FromBytes (r_bytes reader) = Ok (diffID o) /\
       createChainIDFromParent FromBytes parentID [diffID o] = Ok (chainID o) /\
       (parentID = "" -> chainID o = diffID o) /\
       (parentID <> "" ->
          FromBytes (parentID +:+ " " +:+ diffID o) = Ok (chainID o) /\
          parent o = layers (ls m) !! parentID /\ is_Some (parent o)) /\
       layers (ls m') !! chainID o = Some l) /\
  (parentID <> "" -> layers (ls m) !! parentID = None ->
     Register FromBytes reader parentID m = (Err ErrLayerDoesNotExist, m)).
Proof.
  split.
  - intros l m' (d & c & par & Hpar & Herr & Hd & Hc & -> & ->)%Register_Ok_inv.
    eexists. split; [apply lookup_last|]. simpl.
    repeat split; try done.
    + intros ->. simpl in Hc. by injection Hc.
    + simpl in Hc. destruct (decide (parentID = "")); [done|].
      by destruct (FromBytes (parentID +:+ _)); simplify_eq.
    + unfold resolve_parent in Hpar. destruct (decide (parentID = "")); [done|].
      by destruct (layers (ls m) !! parentID); simplify_eq.
    + unfold resolve_parent in Hpar. destruct (decide (parentID = "")); [done|].
      by destruct (layers (ls m) !! parentID); simplify_eq.
    + apply lookup_insert_eq.
  - intros Hne Hnone. rewrite Register_unfold. unfold resolve_parent.
    destruct (decide (parentID = "")); [done|]. by rewrite Hnone.
Qed.

(** C8. [Get] leaves the memory alone and answers from the mapping: the
    layer held for the ChainID when there is one, never an error then, and
    otherwise no layer and [ErrLayerDoesNotExist].  After a successful
    [Register] the ChainID of the returned layer is answered with that
    layer, and every other ChainID as before. *)
Theorem Get_error_discipline (chain : ChainID) (m : Mem) :
  snd (Get chain m) = m /\
  (forall l, layers (ls m) !! chain = Some l -> Get chain m = (Ok l, m)) /\
  (layers (ls m) !! chain = None -> Get chain m = (Err ErrLayerDoesNotExist, m)) /\
  (forall l, fst (Get chain m) = Ok l <-> layers (ls m) !! chain = Some l) /\
  (forall e, fst (Get chain m) = Err e ->
     e = ErrLayerDoesNotExist /\ layers (ls m) !! chain = None) /\
  (forall e, fst (Get chain m) <> Panic e) /\
  (forall reader parentID l m' o,
     Register FromBytes reader parentID m = (Ok l, m') ->
     objs m' !! l = Some o ->
     Get (chainID o) m' = (Ok l, m') /\
     (chain <> chainID o -> fst (Get chain m') = fst (Get chain m))).
Proof.
  assert (Hreg : forall reader parentID l m' o,
     Register FromBytes reader parentID m = (Ok l, m') ->
     objs m' !! l = Some o ->
     Get (chainID o) m' = (Ok l, m') /\
     (chain <> chainID o -> fst (Get chain m') = fst (Get chain m))).
  { intros reader parentID l m' o
      (d & c & par & Hpar & Herr & Hd & Hc & -> & ->)%Register_Ok_inv Ho.
    simpl in Ho. rewrite lookup_last in Ho. injection Ho as <-. unfold Get; simpl.
    rewrite lookup_insert_eq. split; [done|].
    intros Hne. rewrite lookup_insert_ne by done.
    by destruct (layers (ls m) !! chain). }
  unfold Get in *. destruct (layers (ls m) !! chain) as [l0|] eqn:Hl; simpl.
  - split; [done|]. split; [by intros l [= ->]|]. split; [done|].
    split; [intros l; split; congruence|]. split; [done|]. split; [done|].
    exact Hreg.
  - split; [done|]. split; [done|]. split; [done|].
    split; [intros l; split; congruence|].
    split; [by intros e [= <-]|]. split; [done|]. exact Hreg.
Qed.

(** C7 as the code has it.  Every successful [Register] allocates a layer
    object that did not exist before and returns it; the store then maps the
    layer's ChainID to the new object, in place of whatever it held for that
    ChainID, and changes nothing else: the other ChainIDs keep their layers
    and the older objects keep their contents. *)
Theorem Register_returns_new_layer reader parentID m l m' :
  Register FromBytes reader parentID m = (Ok l, m') ->
  exists o,
    objs m !! l = None /\ objs m' !! l = Some o /\
    layers (ls m') = <[chainID o := l]> (layers (ls m)) /\
    (forall l0, is_Some (objs m !! l0) ->
       l <> l0 /\ layers (ls m') !! chainID o <> Some l0 /\
       objs m' !! l0 = objs m !! l0) /\
    (forall c, c <> chainID o -> layers (ls m') !! c = layers (ls m) !! c).
Proof.
  intros (d & c & par & Hpar & Herr & Hd & Hc & -> & ->)%Register_Ok_inv.
  eexists. split; [by apply lookup_ge_None|].
  split; [apply lookup_last|]. simpl. split; [done|]. split.
  - intros l0 Hl0%lookup_lt_is_Some. split; [lia|]. split.
    + rewrite lookup_insert_eq. intros [= ?]. lia.
    + by apply lookup_app_l.
  - intros c' Hne. by rewrite lookup_insert_ne.
Qed.

End XferFacts.


(** ** The layer download manager *)

(** *** What the compound updates leave alone *)

Lemma evict_frame tid s :
  mem (evict tid s) = mem s /\ descs (evict tid s) = descs s /\
  counter (evict tid s) = counter s /\ xfers (evict tid s) = xfers s /\
  calls (evict tid s) = calls s /\ sem (evict tid s) = sem s /\
  history (evict tid s) = history s.
Proof. unfold evict. by repeat case_match. Qed.

Lemma foldr_evict_frame tids s :
  mem (foldr evict s tids) = mem s /\ descs (foldr evict s tids) = descs s /\
  counter (foldr evict s tids) = counter s /\ xfers (foldr evict s tids) = xfers s /\
  calls (foldr evict s tids) = calls s /\ sem (foldr evict s tids) = sem s /\
  history (foldr evict s tids) = history s.
Proof.
  induction tids as [|tid tids IH]; simpl; [done|].
  destruct (evict_frame tid (foldr evict s tids)) as (-> & -> & -> & -> & -> & -> & ->).
  done.
Qed.

Lemma release_all_frame c s :
  mem (release_all c s) = mem s /\ descs (release_all c s) = descs s /\
  counter (release_all c s) = counter s /\ xfers (release_all c s) = xfers s /\
  sem (release_all c s) = sem s /\ history (release_all c s) = history s.
Proof.
  unfold release_all.
  match goal with |- context [foldr evict ?s1 ?tids] =>
    destruct (foldr_evict_frame tids s1) as (-> & -> & -> & -> & _ & -> & ->) end.
  done.
Qed.

Lemma release_all_calls c s :
  calls (release_all c s) =
  alter (fun cl => set_watchers (release_watcher <$> c_watchers cl) cl) c (calls s).
Proof.
  unfold release_all.
  match goal with |- context [foldr evict ?s1 ?tids] =>
    destruct (foldr_evict_frame tids s1) as (_ & _ & _ & _ & -> & _) end.
  done.
Qed.

Lemma release_all_mem c s : mem (release_all c s) = mem s.
Proof. apply release_all_frame. Qed.
Lemma release_all_descs c s : descs (release_all c s) = descs s.
Proof. apply release_all_frame. Qed.
Lemma release_all_counter c s : counter (release_all c s) = counter s.
Proof. apply release_all_frame. Qed.
Lemma release_all_xfers c s : xfers (release_all c s) = xfers s.
Proof. apply release_all_frame. Qed.
Lemma release_all_sem c s : sem (release_all c s) = sem s.
Proof. apply release_all_frame. Qed.
Lemma release_all_history c s : history (release_all c s) = history s.
Proof. apply release_all_frame. Qed.

(** Case analysis on an enabled step, and the projections of its result. *)
Ltac step_inv H :=
  unfold step_call, step_cancel, step_release, step_dispatch, step_await,
    step_ctx_return, step_return, step_start, step_acquire, step_enter,
    step_leave, step_leave_cancelled, step_register, step_abort in H;
  repeat (case_match; simplify_eq; try done);
  repeat match goal with
  | H : _ && _ = true |- _ => apply andb_true_iff in H as [? ?]
  | H : _ || _ = false |- _ => apply orb_false_iff in H as [? ?]
  | H : negb _ = true |- _ => apply negb_true_iff in H
  | H : negb _ = false |- _ => apply negb_false_iff in H
  | H : bool_decide _ = true |- _ => apply bool_decide_eq_true in H
  | H : bool_decide _ = false |- _ => apply bool_decide_eq_false in H
  end.

Ltac frame :=
  unfold fail_call;
  rewrite ?release_all_mem, ?release_all_descs, ?release_all_counter,
    ?release_all_xfers, ?release_all_sem, ?release_all_history, ?release_all_calls;
  simpl.

Ltac frame_all :=
  unfold fail_call in *;
  rewrite ?release_all_mem, ?release_all_descs, ?release_all_counter,
    ?release_all_xfers, ?release_all_sem, ?release_all_history, ?release_all_calls in *;
  simpl in *.

(** *** Transfers only move forward *)
(** *** Lookups after an update *)


Lemma lookup_signal_inv (g : nat -> bool) (l : list transfer) i x' :
  imap (fun tid t => if g tid then signal t else t) l !! i = Some x' ->
  exists x, l !! i = Some x /\ (x' = x \/ x' = signal x).
Proof.
  rewrite list_lookup_imap. destruct (l !! i) as [x|]; [|done]. simpl.
  intros [= <-]. exists x. split; [done|]. destruct (g i); auto.
Qed.

Lemma lookup_alter_inv {A} (f : A -> A) (l : list A) j i x' :
  alter f j l !! i = Some x' ->
  (i = j /\ exists x, l !! j = Some x /\ x' = f x) \/ (i <> j /\ l !! i = Some x').
Proof.
  rewrite list_lookup_alter. case_decide; [subst|auto].
  destruct (l !! i) as [x|]; [|done]. simpl. intros [= <-]. left. eauto.
Qed.

Lemma lookup_snoc_inv {A} (l : list A) y i x' :
  (l ++ [y]) !! i = Some x' -> l !! i = Some x' \/ (i = length l /\ x' = y).
Proof. intros [[_ ?]|[? ?]]%lookup_snoc_Some; auto. Qed.

Ltac inv_lookup H :=
  repeat first
    [ apply lookup_signal_inv in H as (? & H & [-> | ->])
    | apply lookup_alter_inv in H as [(-> & ? & ? & ->)|[? H]]
    | apply lookup_snoc_inv in H as [H|[-> ->]] ].


Section ManagerFacts.

Variable FromBytes : string -> exec Digest.
Variable maxConcurrency : nat.
Variable maxDownloadAttempts : nat.

#[local] Abbreviation step := (step FromBytes maxConcurrency maxDownloadAttempts).
#[local] Abbreviation run := (run FromBytes maxConcurrency maxDownloadAttempts).
#[local] Abbreviation reachable := (reachable FromBytes maxConcurrency maxDownloadAttempts).

Lemma reachable_run s0 s ls s' :
  reachable s0 s -> run ls s = Some s' -> reachable s0 s'.
Proof.
  revert s. induction ls as [|l ls IH]; intros s Hs; simpl.
  - by intros [= <-].
  - destruct (step l s) as [s1|] eqn:Hl; [|done].
    apply IH. by eapply reach_step.
Qed.

Lemma reachable_trans s0 s1 s2 :
  reachable s0 s1 -> reachable s1 s2 -> reachable s0 s2.
Proof. induction 2; [done|]. by eapply reach_step. Qed.


Lemma xfer_le_refl t : xfer_le t t.
Proof. by repeat split. Qed.

Lemma xfer_le_trans t1 t2 t3 : xfer_le t1 t2 -> xfer_le t2 t3 -> xfer_le t1 t3.
Proof.
  intros (?&?&?&?&?&?&Ha) (?&?&?&?&?&?&Hb).
  split; [congruence|]. split; [congruence|]. split; [congruence|].
  split; [congruence|]. split; [lia|]. split; [tauto|].
  intros Ht. destruct (Ha Ht) as [E1 ?]. rewrite <- E1 in Ht.
  destruct (Hb Ht) as [E2 ?]. split; congruence.
Qed.

Lemma xl_le_refl l : xl_le l l.
Proof. intros tid t Ht. exists t. split; [done|apply xfer_le_refl]. Qed.

Lemma xl_le_trans l1 l2 l3 : xl_le l1 l2 -> xl_le l2 l3 -> xl_le l1 l3.
Proof.
  intros H1 H2 tid t Ht. destruct (H1 _ _ Ht) as (t2 & Ht2 & Hle).
  destruct (H2 _ _ Ht2) as (t3 & Ht3 & Hle'). exists t3.
  split; [done|]. by eapply xfer_le_trans.
Qed.

Lemma xl_le_alter l0 l tid f :
  xl_le l0 l ->
  (forall t, l !! tid = Some t -> xfer_le t (f t)) ->
  xl_le l0 (alter f tid l).
Proof.
  intros H0 Hf. eapply xl_le_trans; [exact H0|].
  intros j t Ht. rewrite list_lookup_alter.
  case_decide; subst.
  - rewrite Ht. simpl. eexists; split; [done|]. by apply Hf.
  - exists t. split; [done|apply xfer_le_refl].
Qed.

Lemma xl_le_signal l0 l (g : nat -> bool) :
  xl_le l0 l -> xl_le l0 (imap (fun tid t => if g tid then signal t else t) l).
Proof.
  intros H0. eapply xl_le_trans; [exact H0|].
  intros tid t Ht. rewrite list_lookup_imap, Ht. simpl.
  eexists; split; [done|]. case_match; [|apply xfer_le_refl].
  by repeat split.
Qed.

Lemma xl_le_app l0 l ts : xl_le l0 l -> xl_le l0 (l ++ ts).
Proof.
  intros H0. eapply xl_le_trans; [exact H0|].
  intros j t Ht. exists t. split; [|apply xfer_le_refl].
  by apply lookup_app_l_Some.
Qed.

Ltac xl_le_step :=
  first
    [ apply xl_le_refl
    | apply xl_le_signal
    | apply xl_le_app
    | apply xl_le_alter;
      [|let t := fresh "t" in let Ht := fresh "Ht" in
        intros t Ht; simplify_eq; unfold xfer_le; simpl;
        repeat match goal with H : t_phase _ = _ |- _ => rewrite H end; simpl;
        repeat split; (done || lia)] ].

Lemma step_xfers_le l s s' : step l s = Some s' -> xl_le (xfers s) (xfers s').
Proof.
  intros H. destruct l; simpl in H; step_inv H; frame; repeat xl_le_step.
Qed.

(** *** The semaphore *)

Lemma tally_alter p f i l t :
  l !! i = Some t ->
  tally p (alter f i l) + (if p (t_phase t) then 1 else 0) =
  tally p l + (if p (t_phase (f t)) then 1 else 0).
Proof.
  revert i. induction l as [|x l IH]; intros [|i] Hi; simplify_eq/=.
  - lia.
  - specialize (IH _ Hi). lia.
Qed.

Lemma tally_imap p (f : nat -> transfer -> transfer) l :
  (forall i t, t_phase (f i t) = t_phase t) -> tally p (imap f l) = tally p l.
Proof.
  revert f. induction l as [|x l IH]; intros f Hf; simpl; [done|].
  rewrite Hf, IH; [done|]. intros i t. apply Hf.
Qed.

Lemma tally_signal p (g : nat -> bool) l :
  tally p (imap (fun tid t => if g tid then signal t else t) l) = tally p l.
Proof. apply tally_imap. intros i t. by destruct (g i). Qed.

Lemma tally_app p l l' : tally p (l ++ l') = tally p l + tally p l'.
Proof. induction l as [|x l IH]; simpl; [done|]. rewrite IH. lia. Qed.

Lemma tally_le p q l :
  (forall ph, p ph = true -> q ph = true) -> tally p l <= tally q l.
Proof.
  intros Hpq. induction l as [|x l IH]; simpl; [done|].
  destruct (p (t_phase x)) eqn:Hp; [rewrite (Hpq _ Hp)|]; lia.
Qed.

(** The slots in use are those of the workers that hold one, and they
    never exceed the capacity. *)
Lemma slots_invariant s0 s :
  reachable s0 s ->
  sem s0 = tally holds_slot (xfers s0) -> sem s0 <= maxConcurrency ->
  sem s = tally holds_slot (xfers s) /\ sem s <= maxConcurrency.
Proof.
  intros Hr H0 H0'. induction Hr as [|l s s' Hr [IH IH'] H]; [done|].
  destruct l; simpl in H; step_inv H; frame; rewrite ?tally_signal, ?tally_app; simpl;
    try (split; [lia|done]);
    try match goal with
    | Hx : xfers s !! ?i = Some ?t |- context [alter ?f ?i (xfers s)] =>
      pose proof (tally_alter holds_slot f i _ _ Hx) as Ha; simpl in Ha;
      repeat match goal with Hp : t_phase _ = _ |- _ => rewrite Hp in Ha end; simpl in Ha
    end;
    lia.
Qed.

Lemma boot_slots m ds :
  sem (boot m ds) = tally holds_slot (xfers (boot m ds)) /\ sem (boot m ds) <= maxConcurrency.
Proof. simpl. lia. Qed.

Lemma wrap32_small z : (-2147483648 <= z < 2147483648)%Z -> wrap32 z = z.
Proof.
  intros Hz. unfold wrap32.
  change (2 ^ 31)%Z with 2147483648%Z. change (2 ^ 32)%Z with 4294967296%Z.
  rewrite Z.mod_small; lia.
Qed.

(** With a capacity within the limit that the descriptors of the tests
    check, their counter is the number of calls of [Download] that are
    counted, and no call finds the limit exceeded. *)
Lemma counter_invariant m ds s :
  (Z.of_nat maxConcurrency <= maxDownloadConcurrency)%Z ->
  reachable (boot m ds) s ->
  counter s = Z.of_nat (tally counted (xfers s)) /\ tally tripped (xfers s) = 0.
Proof.
  intros Hmax Hr.
  assert (Hle : forall l, tally counted l <= tally holds_slot l).
  { intros l. apply tally_le. by intros [| | |[] ?| | | |]. }
  induction Hr as [|l s s' Hr [IH IH'] H]; [done|].
  destruct (slots_invariant _ _ Hr) as [Hs Hs']; [done|simpl; lia|].
  unfold maxDownloadConcurrency in *.
  destruct l; simpl in H; step_inv H; frame; rewrite ?tally_signal, ?tally_app; simpl;
    try (split; [lia|done]);
    try match goal with
    | Hx : xfers s !! ?i = Some ?t |- context [alter ?f ?i (xfers s)] =>
      pose proof (tally_alter counted f i _ _ Hx) as Ha;
      pose proof (tally_alter tripped f i _ _ Hx) as Hb;
      pose proof (tally_alter holds_slot f i _ _ Hx) as Hc;
      pose proof (Hle (alter f i (xfers s))) as Hd;
      simpl in Ha, Hb, Hc;
      repeat match goal with Hp : t_phase _ = _ |- _ => rewrite Hp in Ha, Hb, Hc end;
      simpl in Ha, Hb, Hc
    end;
    try lia.
  - (* entry into Download *)
    unfold mockDownloadDescriptor.Download_enter, maxDownloadConcurrency in *.
    destruct (mockDownloadDescriptor.currentDownloads _); simplify_eq; [|lia].
    assert (Hw : wrap32 (counter s + 1) = (counter s + 1)%Z)
      by (apply wrap32_small; lia).
    rewrite Hw in *.
    destruct (Z.gtb_spec (counter s + 1) 3); lia.
  - destruct deferred; simpl in *; rewrite ?wrap32_small by lia; lia.
  - destruct deferred; simpl in *; rewrite ?wrap32_small by lia; lia.
  - destruct deferred; simpl in *; rewrite ?wrap32_small by lia; lia.
  - destruct deferred; simpl in *; rewrite ?wrap32_small by lia; lia.
  - destruct deferred; simpl in *; rewrite ?wrap32_small by lia; lia.
  - destruct deferred; simpl in *; rewrite ?wrap32_small by lia; lia.
Qed.

(** *** Descriptors keep their identity *)

Lemma fmap_alter_static (f : descriptor -> descriptor) a (l : list descriptor) :
  (forall d, l !! a = Some d -> desc_static (f d) = desc_static d) ->
  desc_static <$> alter f a l = desc_static <$> l.
Proof.
  intros Hf. apply list_eq. intros i.
  rewrite !list_lookup_fmap, list_lookup_alter.
  case_decide; [subst|done].
  destruct (l !! i) as [d|] eqn:Hd; simpl; [|done]. f_equal. by apply Hf.
Qed.

Lemma Download_finish_static d d' r :
  mockDownloadDescriptor.Download_finish d = (d', r) -> desc_static d' = desc_static d.
Proof.
  unfold mockDownloadDescriptor.Download_finish. case_decide; by intros [= <- <-].
Qed.

Lemma step_statics l s s' : step l s = Some s' -> statics s' = statics s.
Proof.
  unfold statics.
  intros H. destruct l; simpl in H; step_inv H; frame; try done;
    apply fmap_alter_static; intros d0 Hd0; simplify_eq; try done.
  all: by eapply Download_finish_static.
Qed.

Lemma step_descs_length l s s' : step l s = Some s' -> length (descs s') = length (descs s).
Proof.
  intros H%step_statics. unfold statics in H.
  by rewrite <- (length_fmap desc_static (descs s')), H, length_fmap.
Qed.

Lemma statics_lookup s a d :
  descs s !! a = Some d -> statics s !! a = Some (desc_static d).
Proof. intros H. unfold statics. by rewrite list_lookup_fmap, H. Qed.

Lemma statics_lookup_inv s a st :
  statics s !! a = Some st -> exists d, descs s !! a = Some d /\ desc_static d = st.
Proof.
  unfold statics. rewrite list_lookup_fmap.
  destruct (descs s !! a) as [d|]; [|done]. intros [= <-]. by exists d.
Qed.

(** *** Well-formed states *)

Lemma wf_call_mono nx nx' nd cl : wf_call nx nd cl -> nx <= nx' -> wf_call nx' nd cl.
Proof.
  intros (H1 & H2 & H3) Hle. split; [done|]. split; [|done].
  eapply Forall_impl; [exact H2|]. simpl. intros; lia.
Qed.

Lemma Forall_imap_signal (P : transfer -> Prop) (g : nat -> bool) l :
  (forall t, P t -> P (signal t)) ->
  Forall P l -> Forall P (imap (fun tid t => if g tid then signal t else t) l).
Proof.
  intros HP Hl. apply Forall_lookup. intros i t.
  rewrite list_lookup_imap. destruct (l !! i) as [t0|] eqn:Ht0; [|done].
  simpl. intros [= <-]. pose proof (Forall_lookup_1 _ _ _ _ Hl Ht0).
  destruct (g i); auto.
Qed.

Lemma wf_call_cancel_ctx nx nd cl : wf_call nx nd cl -> wf_call nx nd (cancel_ctx cl).
Proof.
  intros (H1 & H2 & H3 & H4 & H5 & H6 & H7). unfold wf_call; simpl.
  rewrite !length_fmap, !Forall_fmap. split_and!; done.
Qed.

Lemma wf_call_release nx nd cl :
  c_result cl <> None -> wf_call nx nd cl ->
  wf_call nx nd (set_watchers (release_watcher <$> c_watchers cl) cl).
Proof.
  intros Hr (H1 & H2 & H3 & H4 & H5 & H6 & H7). unfold wf_call; simpl.
  rewrite !length_fmap, !Forall_fmap. split_and!; done.
Qed.

Lemma wf_call_fail_mark nx nd cl e :
  wf_call nx nd cl ->
  wf_call nx nd (set_result (Err e)
    (set_watchers (imap (fun i w => if decide (c_pos cl < i) then cancel_watcher w else w)
                        (c_watchers cl)) cl)).
Proof.
  intros (H1 & H2 & H3 & H4 & H5 & H6 & H7). unfold wf_call; simpl.
  rewrite !length_imap. split_and!; try done.
  apply Forall_lookup. intros i w. rewrite list_lookup_imap.
  destruct (c_watchers cl !! i) as [w0|] eqn:Hw0; [|done]. simpl. intros [= <-].
  pose proof (Forall_lookup_1 _ _ _ _ H2 Hw0). by case_decide.
Qed.

Lemma wf_call_attach nx nd cl a tid b :
  c_result cl = None -> c_descs cl !! length (c_watchers cl) = Some a -> tid < nx ->
  wf_call nx nd cl ->
  wf_call nx nd (set_watchers (c_watchers cl ++ [MkWatcher tid b false]) cl).
Proof.
  intros Hr Ha Htid (H1 & H2 & H3 & H4 & H5 & H6 & H7). unfold wf_call; simpl.
  apply lookup_lt_Some in Ha.
  rewrite !length_app, !Forall_app, !Forall_singleton. simpl.
  split_and!; try done; try lia; try congruence.
  intros _. split; [by apply H6|done].
Qed.

Lemma wf_call_advance nx nd cl w :
  c_result cl = None -> c_watchers cl !! c_pos cl = Some w ->
  length (c_watchers cl) = length (c_descs cl) ->
  wf_call nx nd cl -> wf_call nx nd (advance cl).
Proof.
  intros Hr Hw Hlen (H1 & H2 & H3 & H4 & H5 & H6 & H7). unfold wf_call; simpl.
  apply lookup_lt_Some in Hw. split_and!; try done; try lia; congruence.
Qed.

Lemma wf_call_return nx nd cl r :
  c_pos cl = length (c_watchers cl) -> length (c_watchers cl) = length (c_descs cl) ->
  wf_call nx nd cl -> wf_call nx nd (set_result (Ok r) cl).
Proof.
  intros Hp Hlen (H1 & H2 & H3 & H4 & H5 & H6 & H7). unfold wf_call; simpl.
  split_and!; done.
Qed.

Ltac wf_calls :=
  rewrite ?list_alter_alter_eq;
  first
    [ apply Forall_alter; [eapply Forall_impl; [eassumption|]; intros; eapply wf_call_mono; [eassumption|lia] |];
      let x := fresh "cl" in let Hx := fresh "Hcl" in let Hw := fresh "Hwf" in
      intros x Hx Hw; simplify_eq; simpl;
      first
        [ by apply wf_call_cancel_ctx
        | (apply wf_call_release; [simpl; congruence|]); first [ by apply wf_call_fail_mark | done ]
        | by eapply wf_call_advance
        | by apply wf_call_return
        | (eapply wf_call_attach; [done|eassumption| |eapply wf_call_mono; [eassumption|lia]]) ]
    | idtac ].

Lemma evict_registry tid s K x :
  registry (evict tid s) !! K = Some x -> registry s !! K = Some x.
Proof.
  unfold evict. repeat case_match; try done. simpl.
  by intros [_ ?]%lookup_delete_Some.
Qed.

Lemma foldr_evict_registry tids s K x :
  registry (foldr evict s tids) !! K = Some x -> registry s !! K = Some x.
Proof.
  induction tids as [|tid tids IH]; simpl; [done|].
  intros H%evict_registry. by apply IH.
Qed.

Lemma release_all_registry c s K x :
  registry (release_all c s) !! K = Some x -> registry s !! K = Some x.
Proof. unfold release_all. by intros H%foldr_evict_registry. Qed.

Lemma step_registry l s s' K tid :
  step l s = Some s' -> registry s' !! K = Some tid ->
  registry s !! K = Some tid \/
  (tid = length (xfers s) /\ exists t, xfers s' !! tid = Some t /\ t_key t = K).
Proof.
  intros H. destruct l; simpl in H; step_inv H; frame; auto;
    try (by intros ?%release_all_registry; left).
  all: intros [[<- <-]|[? ?]]%lookup_insert_Some; [right|by left].
  all: split; [done|]; rewrite list_lookup_imap, list_lookup_middle by done; simpl.
  all: eexists; split; [done|]; by case_match.
Qed.

Lemma wf_step l s s' : wf s -> step l s = Some s' -> wf s'.
Proof.
  intros (Hc & Hx & Hr) H.
  pose proof (step_statics _ _ _ H) as Hst.
  pose proof (step_descs_length _ _ _ H) as Hdl.
  split; [|split].
  - rewrite Hdl. clear Hst Hdl.
    destruct l; simpl in H; step_inv H; frame; rewrite ?length_imap, ?length_alter, ?length_app;
      simpl; try done; wf_calls; try lia; try (by eapply lookup_lt_Some).
    apply Forall_app; split; [done|]. apply Forall_singleton.
    unfold wf_call; simpl. split_and!; try done; try lia.
    apply Forall_forall. intros a Ha%list_elem_of_In.
    rewrite forallb_forall in H0. by apply H0, bool_decide_eq_true in Ha.
  - rewrite Hst. clear Hst Hdl.
    destruct l; simpl in H; step_inv H; frame; try done;
      repeat first [ apply Forall_imap_signal; [done|] | apply Forall_alter; [|done] ];
      try done.
    all: apply Forall_app; split; [done|]; apply Forall_singleton.
    all: eexists; split; [by apply statics_lookup|done].
  - intros K tid [Hold|[_ Hnew]]%(step_registry _ _ _ _ _ H); [|done].
    destruct (Hr _ _ Hold) as (t & Ht & <-).
    destruct (step_xfers_le _ _ _ H _ _ Ht) as (t' & Ht' & Hk & _).
    by exists t'.
Qed.

Lemma wf_boot m ds : wf (boot m ds).
Proof. split; [|split]; simpl; [constructor|constructor|]. by intros K tid. Qed.

Lemma wf_reachable m ds s : reachable (boot m ds) s -> wf s.
Proof. induction 1; [apply wf_boot|]. by eapply wf_step. Qed.

(** *** Watchers and the registry *)

Lemma refcount_attached s c cl k w :
  calls s !! c = Some cl -> c_watchers cl !! k = Some w -> w_released w = false ->
  refcount s (w_xfer w) <> 0.
Proof.
  intros Hc Hw Hrel. unfold refcount.
  assert (Hin : w ∈ filter (fun w' => attached (w_xfer w) w' = true) (all_watchers s)).
  { apply list_elem_of_filter. split.
    - unfold attached. rewrite Hrel. simpl. by apply bool_decide_eq_true.
    - unfold all_watchers. apply list_elem_of_join. exists (c_watchers cl). split.
      + by eapply list_elem_of_lookup_2.
      + apply list_elem_of_fmap. exists cl. split; [done|]. by eapply list_elem_of_lookup_2. }
  destruct (filter _ _); [by apply not_elem_of_nil in Hin|done].
Qed.

Lemma registered_watchers_evict tid s :
  registered_watchers s -> registered_watchers (evict tid s).
Proof.
  intros HD. unfold evict.
  destruct (xfers s !! tid) as [t|] eqn:Ht; [|done].
  destruct (terminal (t_phase t) && bool_decide (refcount s tid = 0)
            && bool_decide (registry s !! t_key t = Some tid)) eqn:Hg; [|done].
  apply andb_true_iff in Hg as [[_ Hrc%bool_decide_eq_true]%andb_true_iff
                                Hreg%bool_decide_eq_true].
  intros c cl k w Hc Hw Hrel. simpl in *.
  destruct (HD _ _ _ _ Hc Hw Hrel) as (t' & Ht' & Hreg').
  exists t'. split; [done|].
  rewrite lookup_delete_ne; [done|]. intros Hk. rewrite <- Hk in Hreg'.
  simplify_eq. by eapply refcount_attached.
Qed.

Lemma registered_watchers_foldr_evict tids s :
  registered_watchers s -> registered_watchers (foldr evict s tids).
Proof.
  induction tids as [|tid tids IH]; simpl; [done|].
  intros H. by apply registered_watchers_evict, IH.
Qed.

(** Updating a call without attaching or detaching a watcher. *)
Lemma registered_watchers_upd_call c f s :
  (forall cl k w', calls s !! c = Some cl -> c_watchers (f cl) !! k = Some w' ->
     w_released w' = false ->
     exists w, c_watchers cl !! k = Some w /\ w_xfer w = w_xfer w' /\ w_released w = false) ->
  registered_watchers s -> registered_watchers (upd_call c f s).
Proof.
  intros Hf HD c' cl' k w' Hc' Hw' Hrel. simpl in *.
  rewrite list_lookup_alter in Hc'. case_decide; subst.
  - destruct (calls s !! c') as [cl|] eqn:Hcl; simplify_eq/=.
    destruct (Hf _ _ _ eq_refl Hw' Hrel) as (w & Hw & Hx & Hr).
    rewrite <- Hx. by eapply HD.
  - by eapply HD.
Qed.

Lemma registered_watchers_xfers s xs :
  xl_le (xfers s) xs -> registered_watchers s -> registered_watchers (with_xfers xs s).
Proof.
  intros Hle HD c cl k w Hc Hw Hrel. simpl in *.
  destruct (HD _ _ _ _ Hc Hw Hrel) as (t & Ht & Hreg).
  destruct (Hle _ _ Ht) as (t' & Ht' & Hk & _).
  exists t'. by rewrite Hk.
Qed.

Lemma registered_watchers_release_all c s :
  registered_watchers s -> registered_watchers (release_all c s).
Proof.
  intros HD. unfold release_all. apply registered_watchers_foldr_evict.
  apply registered_watchers_upd_call; [|done].
  intros cl k w' _ Hw' Hrel. simpl in Hw'.
  rewrite list_lookup_fmap in Hw'. destruct (c_watchers cl !! k); simplify_eq/=.
Qed.

Lemma registered_watchers_resignal s :
  registered_watchers s -> registered_watchers (resignal s).
Proof. apply registered_watchers_xfers, xl_le_signal, xl_le_refl. Qed.

Lemma registered_watchers_fail_call c e s :
  registered_watchers s -> registered_watchers (fail_call c e s).
Proof.
  intros HD. apply registered_watchers_release_all, registered_watchers_resignal.
  apply registered_watchers_upd_call; [|done].
  intros cl k w' _ Hw' Hrel. simpl in Hw'.
  rewrite list_lookup_imap in Hw'. destruct (c_watchers cl !! k) as [w|]; simplify_eq/=.
  exists w. by case_decide.
Qed.

Lemma registered_watchers_ext s1 s' :
  calls s' = calls s1 -> registry s' = registry s1 -> xl_le (xfers s1) (xfers s') ->
  registered_watchers s1 -> registered_watchers s'.
Proof.
  intros Ec Er Hle HD c cl k w Hc Hw Hrel. rewrite Ec in Hc.
  destruct (HD _ _ _ _ Hc Hw Hrel) as (t & Ht & Hreg).
  destruct (Hle _ _ Ht) as (t' & Ht' & Hk & _).
  exists t'. by rewrite Er, Hk.
Qed.

Lemma registered_watchers_attach s c tid t b :
  xfers s !! tid = Some t -> registry s !! t_key t = Some tid ->
  registered_watchers s ->
  registered_watchers
    (upd_call c (fun cl => set_watchers (c_watchers cl ++ [MkWatcher tid (b cl) false]) cl) s).
Proof.
  intros Ht Hreg HD c' cl' k w Hc' Hw Hrel. simpl in *.
  rewrite list_lookup_alter in Hc'. case_decide; subst.
  - destruct (calls s !! c') as [cl|] eqn:Hcl; simplify_eq/=.
    apply lookup_snoc_Some in Hw as [[_ Hw]|[_ <-]]; [by eapply HD|].
    by exists t.
  - by eapply HD.
Qed.

Lemma registered_watchers_insert s K t :
  t_key t = K ->
  (forall n0 t0, registry s !! K = Some n0 -> xfers s !! n0 = Some t0 -> refcount s n0 = 0) ->
  registered_watchers s ->
  registered_watchers
    (with_registry (<[K := length (xfers s)]> (registry s)) (with_xfers (xfers s ++ [t]) s)).
Proof.
  intros Hk Hdead HD c cl k w Hc Hw Hrel. simpl in *.
  destruct (HD _ _ _ _ Hc Hw Hrel) as (t' & Ht' & Hreg).
  exists t'. split; [by apply lookup_app_l_Some|].
  rewrite lookup_insert_ne; [done|]. intros Heq. rewrite Heq in Hdead.
  specialize (Hdead _ _ Hreg Ht'). by eapply refcount_attached.
Qed.

Lemma registered_watchers_step l s s' :
  wf s -> registered_watchers s -> step l s = Some s' -> registered_watchers s'.
Proof.
  intros (Hwc & Hwx & Hwr) HD H.
  pose proof (step_xfers_le _ _ _ H) as Hle.
  destruct l; simpl in H; step_inv H;
    try (by apply registered_watchers_fail_call);
    try (by apply registered_watchers_release_all);
    try (by apply (registered_watchers_ext s); [reflexivity|reflexivity|exact Hle|done]).
  - (* a new call *)
    intros c cl k w [Hc|[_ Hc]]%lookup_app_Some Hw Hrel; simpl; [by eapply HD|].
    apply list_lookup_singleton_Some in Hc as [_ <-]. done.
  - apply registered_watchers_resignal, registered_watchers_upd_call; [|done].
    intros cl k w' _ Hw' Hrel. simpl in Hw'. rewrite list_lookup_fmap in Hw'.
    destruct (c_watchers cl !! k) as [w|]; simplify_eq/=. by exists w.
  - apply registered_watchers_resignal.
    destruct (Hwr _ _ H) as (t2 & ? & Hk). simplify_eq.
    eapply (registered_watchers_attach _ _ _ _ c_ctx); [done| |done]. by rewrite Hk.
  - apply registered_watchers_resignal.
    eapply (registered_watchers_attach _ _ _ _ c_ctx);
      [by apply list_lookup_middle|by apply lookup_insert_eq|].
    apply registered_watchers_insert; [done| |done].
    intros n1 t1 ? ?. by simplify_eq.
  - apply registered_watchers_resignal.
    eapply (registered_watchers_attach _ _ _ _ c_ctx);
      [by apply list_lookup_middle|by apply lookup_insert_eq|].
    apply registered_watchers_insert; [done| |done].
    intros n1 t1 ? ?. by simplify_eq.
  - apply registered_watchers_resignal.
    eapply (registered_watchers_attach _ _ _ _ c_ctx);
      [by apply list_lookup_middle|by apply lookup_insert_eq|].
    apply registered_watchers_insert; [done| |done].
    intros n1 t1 ? ?. by simplify_eq.
  - apply registered_watchers_upd_call; [|done]. intros cl k w' _ Hw' Hrel. by exists w'.
  - apply registered_watchers_upd_call.
    + intros cl k w' _ Hw' Hrel. by exists w'.
    + by apply (registered_watchers_ext s).
  - apply registered_watchers_upd_call; [|done]. intros cl k w' _ Hw' Hrel. by exists w'.
Qed.

Lemma registered_watchers_reachable m ds s :
  reachable (boot m ds) s -> registered_watchers s.
Proof.
  intros Hr. induction Hr as [|l s s' Hr IH H]; [by intros c cl k w|].
  eapply registered_watchers_step; [|done..]. by eapply wf_reachable.
Qed.

(** *** What the calls are attached to *)

Lemma fmap_alter_eq {A B} (g : A -> B) (f : A -> A) i (l : list A) :
  (forall x, l !! i = Some x -> g (f x) = g x) -> g <$> alter f i l = g <$> l.
Proof.
  intros Hf. apply list_eq. intros j.
  rewrite !list_lookup_fmap, list_lookup_alter.
  case_decide; [subst|done].
  destruct (l !! j) as [x|] eqn:Hx; simpl; [|done]. f_equal. by apply Hf.
Qed.

Lemma w_xfer_release (ws : list watcher) : w_xfer <$> (release_watcher <$> ws) = w_xfer <$> ws.
Proof. rewrite <- list_fmap_compose. by apply list_fmap_ext. Qed.

Lemma w_xfer_cancel (ws : list watcher) : w_xfer <$> (cancel_watcher <$> ws) = w_xfer <$> ws.
Proof. rewrite <- list_fmap_compose. by apply list_fmap_ext. Qed.

Lemma w_xfer_imap_cancel (g : nat -> bool) (ws : list watcher) :
  w_xfer <$> imap (fun i w => if g i then cancel_watcher w else w) ws = w_xfer <$> ws.
Proof.
  apply list_eq. intros i. rewrite !list_lookup_fmap, list_lookup_imap.
  destruct (ws !! i); simpl; [|done]. by destruct (g i).
Qed.

Lemma w_xfer_fail_mark n (ws : list watcher) :
  w_xfer <$> imap (fun i w => if decide (n < i) then cancel_watcher w else w) ws
  = w_xfer <$> ws.
Proof.
  apply list_eq. intros i. rewrite !list_lookup_fmap, list_lookup_imap.
  destruct (ws !! i); simpl; [|done]. by case_decide.
Qed.

Lemma step_attachments l s s' :
  step l s = Some s' ->
  (forall c, l <> Dispatch c) -> (forall i d, l <> CallDownload i d) ->
  attachments <$> calls s' = attachments <$> calls s.
Proof.
  intros H Hd Hc. destruct l; try (by edestruct Hd); try (by edestruct Hc);
    simpl in H; step_inv H; frame; try done;
    rewrite ?list_alter_alter_eq; apply fmap_alter_eq; intros x Hx;
    unfold attachments; simpl;
    by rewrite ?w_xfer_release, ?w_xfer_cancel, ?w_xfer_fail_mark.
Qed.

Lemma attachments_attach c tid (b : call -> bool) (cs : list call) :
  attachments <$>
    alter (fun cl => set_watchers (c_watchers cl ++ [MkWatcher tid (b cl) false]) cl) c cs
  = alter (fun p => (p.1, p.2 ++ [tid])) c (attachments <$> cs).
Proof.
  apply list_fmap_alter, Forall_forall. intros cl _.
  unfold attachments; simpl. by rewrite fmap_snoc.
Qed.

Lemma attachments_lookup (cs : list call) c cl :
  cs !! c = Some cl -> (attachments <$> cs) !! c = Some (c_descs cl, w_xfer <$> c_watchers cl).
Proof. intros H. by rewrite list_lookup_fmap, H. Qed.

Lemma keyed_ext s s' :
  attachments <$> calls s' = attachments <$> calls s ->
  xl_le (xfers s) (xfers s') -> statics s' = statics s -> keyed s -> keyed s'.
Proof.
  intros Ea Hle Es HK c ds ws k a tid Hc Ha Htid. rewrite Ea in Hc.
  destruct (HK _ _ _ _ _ _ Hc Ha Htid) as (t & st & Ht & Hst & Hk).
  destruct (Hle _ _ Ht) as (t' & Ht' & Hk' & _).
  exists t', st. rewrite Es. split_and!; [done|done|congruence].
Qed.

(** The step that attaches the next watcher of call [c] to transfer [tid]. *)
Lemma keyed_attach s s' c cl a d tid t :
  wf s -> keyed s ->
  calls s !! c = Some cl -> c_descs cl !! length (c_watchers cl) = Some a ->
  descs s !! a = Some d ->
  attachments <$> calls s' =
    alter (fun p => (p.1, p.2 ++ [tid])) c (attachments <$> calls s) ->
  xl_le (xfers s) (xfers s') -> statics s' = statics s ->
  xfers s' !! tid = Some t -> t_key t = mockDownloadDescriptor.Key d ->
  keyed s'.
Proof.
  intros Hwf HK Hc Ha Hd Ea Hle Es Ht Hk c' ds ws k a' tid' Hc' Ha' Htid'.
  rewrite Ea, list_lookup_alter in Hc'. rewrite Es.
  assert (Hold : forall ds ws, (attachments <$> calls s) !! c' = Some (ds, ws) ->
            ds !! k = Some a' -> ws !! k = Some tid' ->
            exists t st, xfers s' !! tid' = Some t /\ statics s !! a' = Some st /\
              t_key t = static_id st).
  { intros ds0 ws0 H1 H2 H3.
    destruct (HK _ _ _ _ _ _ H1 H2 H3) as (t0 & st & Ht0 & Hst & Hk0).
    destruct (Hle _ _ Ht0) as (t' & Ht' & Hk' & _).
    exists t', st. split_and!; [done|done|congruence]. }
  case_decide; [subst c'|by eapply Hold].
  rewrite (attachments_lookup _ _ _ Hc) in Hc'. simpl in Hc'. simplify_eq.
  apply lookup_snoc_Some in Htid' as [[_ Htid']|[Hlen <-]].
  - eapply Hold; [by apply attachments_lookup|done..].
  - rewrite length_fmap in Hlen. subst k. simplify_eq.
    exists t, (desc_static d). split_and!; [done|by apply statics_lookup|done].
Qed.

Lemma keyed_step l s s' : wf s -> keyed s -> step l s = Some s' -> keyed s'.
Proof.
  intros Hwf HK H.
  pose proof (step_xfers_le _ _ _ H) as Hle.
  pose proof (step_statics _ _ _ H) as Hst.
  destruct l;
    try (by eapply keyed_ext; [eapply step_attachments; [done|by intros|by intros]|done..]).
  - simpl in H. step_inv H. intros c ds0 ws k a tid Hc Ha Htid. simpl in *.
    rewrite fmap_app in Hc. apply lookup_app_Some in Hc as [Hc|[_ Hc]].
    + by eapply HK.
    + apply list_lookup_singleton_Some in Hc as [_ Hc].
      unfold attachments in Hc. by simplify_eq/=.
  - destruct Hwf as (Hwc & Hwx & Hwr). simpl in H. step_inv H.
    + destruct (Hwr _ _ H) as (t2 & Ht2 & Hk).
      destruct (Hle _ _ Ht2) as (t' & Ht' & Hk' & _).
      eapply (keyed_attach s); try done; [simpl; apply attachments_attach|]. congruence.
    + eapply (keyed_attach s); try done; [simpl; apply attachments_attach| |].
      * simpl. rewrite list_lookup_imap, list_lookup_middle by done. simpl. reflexivity.
      * simpl. by case_match.
    + eapply (keyed_attach s); try done; [simpl; apply attachments_attach| |].
      * simpl. rewrite list_lookup_imap, list_lookup_middle by done. simpl. reflexivity.
      * simpl. by case_match.
    + eapply (keyed_attach s); try done; [simpl; apply attachments_attach| |].
      * simpl. rewrite list_lookup_imap, list_lookup_middle by done. simpl. reflexivity.
      * simpl. by case_match.
Qed.

Lemma keyed_reachable m ds s : reachable (boot m ds) s -> keyed s.
Proof.
  intros Hr. induction Hr as [|l s s' Hr IH H]; [by intros c ds0 ws k a tid|].
  eapply keyed_step; [|done..]. by eapply wf_reachable.
Qed.

(** *** Sharing within a call *)

Lemma attached_valid s c ds ws k tid :
  wf s -> (attachments <$> calls s) !! c = Some (ds, ws) -> ws !! k = Some tid ->
  exists cl w x, calls s !! c = Some cl /\ c_watchers cl !! k = Some w /\
    w_xfer w = tid /\ ds = c_descs cl /\ xfers s !! tid = Some x.
Proof.
  intros (Hwc & _ & _) Hc Hk. rewrite list_lookup_fmap in Hc.
  destruct (calls s !! c) as [cl|] eqn:Hcl; [|done]. injection Hc as <- <-.
  rewrite list_lookup_fmap in Hk.
  destruct (c_watchers cl !! k) as [w|] eqn:Hw; [|done]. injection Hk as <-.
  pose proof (Forall_lookup_1 _ _ _ _ Hwc Hcl) as (_ & Hv & _).
  pose proof (Forall_lookup_1 _ _ _ _ Hv Hw) as Hlt. simpl in Hlt.
  apply lookup_lt_is_Some in Hlt as [x Hx]. by exists cl, w, x.
Qed.

Lemma shared_ext s s' :
  wf s -> attachments <$> calls s' = attachments <$> calls s ->
  xl_le (xfers s) (xfers s') -> shared s -> shared s'.
Proof.
  intros Hwf Ea Hle HS c ds ws j k tj tk xj xk Hc Hj Hk Hxj Hxk Hkey.
  rewrite Ea in Hc.
  destruct (attached_valid _ _ _ _ _ _ Hwf Hc Hj) as (_ & _ & xj0 & _ & _ & _ & _ & Hxj0).
  destruct (attached_valid _ _ _ _ _ _ Hwf Hc Hk) as (_ & _ & xk0 & _ & _ & _ & _ & Hxk0).
  destruct (Hle _ _ Hxj0) as (xj' & ? & Hkj & _).
  destruct (Hle _ _ Hxk0) as (xk' & ? & Hkk & _). simplify_eq.
  eapply HS; [done..|]. congruence.
Qed.

Lemma shared_attach s s' c cl tid :
  wf s -> shared s ->
  calls s !! c = Some cl ->
  attachments <$> calls s' =
    alter (fun p => (p.1, p.2 ++ [tid])) c (attachments <$> calls s) ->
  xl_le (xfers s) (xfers s') ->
  (forall k w x t, c_watchers cl !! k = Some w -> xfers s !! w_xfer w = Some x ->
     xfers s' !! tid = Some t -> t_key x = t_key t -> w_xfer w = tid) ->
  shared s'.
Proof.
  intros Hwf HS Hc Ea Hle Hnew c' ds ws j k tj tk xj xk Hc' Hj Hk Hxj Hxk Hkey.
  rewrite Ea, list_lookup_alter in Hc'.
  assert (Hold : forall ds ws j k tj tk,
            (attachments <$> calls s) !! c' = Some (ds, ws) ->
            ws !! j = Some tj -> ws !! k = Some tk ->
            xfers s' !! tj = Some xj -> xfers s' !! tk = Some xk -> tj = tk).
  { intros ds0 ws0 j0 k0 tj0 tk0 H0 Hj0 Hk0 Hxj0 Hxk0.
    destruct (attached_valid _ _ _ _ _ _ Hwf H0 Hj0) as (_ & _ & yj & _ & _ & _ & _ & Hyj).
    destruct (attached_valid _ _ _ _ _ _ Hwf H0 Hk0) as (_ & _ & yk & _ & _ & _ & _ & Hyk).
    destruct (Hle _ _ Hyj) as (xj' & ? & Hkj & _).
    destruct (Hle _ _ Hyk) as (xk' & ? & Hkk & _). simplify_eq.
    eapply HS; [done..|]. congruence. }
  assert (Hmix : forall k0 tk0 x0 t,
            (w_xfer <$> c_watchers cl) !! k0 = Some tk0 ->
            xfers s' !! tk0 = Some x0 -> xfers s' !! tid = Some t ->
            t_key x0 = t_key t -> tk0 = tid).
  { intros k0 tk0 x0 t Hk0 Hx0 Ht Hkk.
    destruct (attached_valid _ _ _ _ _ _ Hwf (attachments_lookup _ _ _ Hc) Hk0)
      as (cl' & w & y & ? & Hw & <- & _ & Hy). simplify_eq.
    destruct (Hle _ _ Hy) as (x' & ? & Hkx & _). simplify_eq.
    eapply Hnew; [done..|]. congruence. }
  case_decide; [subst c'|by eapply Hold].
  rewrite (attachments_lookup _ _ _ Hc) in Hc'. simpl in Hc'. simplify_eq.
  apply lookup_snoc_Some in Hj as [[_ Hj]|[_ <-]];
    apply lookup_snoc_Some in Hk as [[_ Hk]|[_ <-]].
  - eapply Hold; [by apply attachments_lookup|done..].
  - by eapply Hmix.
  - symmetry. by eapply Hmix.
  - done.
Qed.

Lemma shared_step l s s' :
  wf s -> registered_watchers s -> shared s -> step l s = Some s' -> shared s'.
Proof.
  intros Hwf HD HS H.
  pose proof (step_xfers_le _ _ _ H) as Hle.
  destruct l;
    try (by eapply shared_ext; [done|eapply step_attachments; [done|by intros|by intros]|done..]).
  - simpl in H. step_inv H. intros c ds0 ws j k tj tk xj xk Hc. simpl in *.
    rewrite fmap_app in Hc. apply lookup_app_Some in Hc as [Hc|[_ Hc]].
    + by eapply HS.
    + apply list_lookup_singleton_Some in Hc as [_ Hc].
      unfold attachments in Hc. by simplify_eq/=.
  - pose proof Hwf as (Hwc & Hwx & Hwr). simpl in H. step_inv H.
    all: eapply (shared_attach s); try done; [simpl; apply attachments_attach|].
    all: intros k w x t' Hw Hx Ht' Hkey.
    all: match goal with Hc : calls _ !! _ = Some ?cl, Hn : c_result ?cl = None |- _ =>
           pose proof (Forall_lookup_1 _ _ _ _ Hwc Hc) as (_ & _ & _ & _ & _ & Hrel & _);
           specialize (Hrel Hn);
           pose proof (Forall_lookup_1 _ _ _ _ Hrel Hw) as Hw';
           destruct (HD _ _ _ _ Hc Hw Hw') as (x' & Hx' & Hreg) end.
    all: simplify_eq.
    + destruct (Hwr _ _ H) as (t2 & Ht2 & Hk2).
      destruct (Hle _ _ Ht2) as (t3 & Ht3 & Hk3 & _). simplify_eq.
      rewrite Hkey, Hk3, Hk2 in Hreg. congruence.
    + exfalso. simpl in Ht'.
      rewrite list_lookup_imap, list_lookup_middle in Ht' by done. simpl in Ht'.
      assert (t_key t' = mockDownloadDescriptor.Key t) as Hk' by (by case_match; simplify_eq).
      rewrite Hkey, Hk' in Hreg. simplify_eq.
      by eapply refcount_attached.
    + exfalso. simpl in Ht'.
      rewrite list_lookup_imap, list_lookup_middle in Ht' by done. simpl in Ht'.
      assert (t_key t' = mockDownloadDescriptor.Key t) as Hk' by (by case_match; simplify_eq).
      rewrite Hkey, Hk' in Hreg. simplify_eq.
    + exfalso. simpl in Ht'.
      rewrite list_lookup_imap, list_lookup_middle in Ht' by done. simpl in Ht'.
      assert (t_key t' = mockDownloadDescriptor.Key t) as Hk' by (by case_match; simplify_eq).
      rewrite Hkey, Hk' in Hreg. simplify_eq.
Qed.

Lemma shared_reachable m ds s : reachable (boot m ds) s -> shared s.
Proof.
  intros Hr. induction Hr as [|l s s' Hr IH H]; [by intros c ds0 ws j k tj tk xj xk|].
  eapply shared_step; [| |done..].
  - by eapply wf_reachable.
  - by eapply registered_watchers_reachable.
Qed.

(** *** The history *)

Lemma step_history l s s' :
  step l s = Some s' -> exists evs, history s' = history s ++ evs.
Proof.
  intros H. destruct l; simpl in H; step_inv H; frame;
    rewrite <- ?(assoc_L (++)); first [by eexists|by exists []; rewrite app_nil_r].
Qed.

Lemma lookup_alter_Some {A} (f : A -> A) (l : list A) i x :
  l !! i = Some x -> alter f i l !! i = Some (f x).
Proof. intros H. by rewrite list_lookup_alter_eq, H. Qed.

Lemma registered_ended_step l s s' :
  registered_ended s -> step l s = Some s' -> registered_ended s'.
Proof.
  intros HJ H. pose proof (step_xfers_le _ _ _ H) as Hle.
  assert (Hold : forall t l0, EvRegister t l0 ∈ history s ->
            exists x, xfers s' !! t = Some x /\
              ((exists d, t_phase x = Done l0 d) \/ t_phase x = Failed errInvalidDigest)).
  { intros t l0 Hin. destruct (HJ _ _ Hin) as (x & Hx & Hp).
    destruct (Hle _ _ Hx) as (x' & Hx' & _ & _ & _ & _ & _ & _ & Hterm).
    exists x'. split; [done|].
    destruct Hterm as [-> _]; [|done]. by destruct Hp as [[d ->]| ->]. }
  intros t l0 Hin.
  destruct l; simpl in H; step_inv H; frame_all;
    rewrite ?elem_of_app, ?list_elem_of_singleton in Hin;
    try (by apply Hold);
    repeat match goal with Hin : _ \/ _ |- _ => destruct Hin as [Hin|Hin] end;
    simplify_eq; try (by apply Hold).
  all: eexists; split; [by apply lookup_alter_Some|]; simpl; eauto.
Qed.

Lemma registered_ended_reachable m ds s : reachable (boot m ds) s -> registered_ended s.
Proof.
  intros Hr. induction Hr as [|l s s' Hr IH H].
  - intros t l Hin. simpl in Hin. by apply not_elem_of_nil in Hin.
  - by eapply registered_ended_step.
Qed.

Lemma download_owner_step l s s' :
  download_owner s -> step l s = Some s' -> download_owner s'.
Proof.
  intros HJ H. pose proof (step_xfers_le _ _ _ H) as Hle.
  assert (Hold : forall t a, EvDownload t a ∈ history s ->
            exists x, xfers s' !! t = Some x /\ t_desc x = a).
  { intros t a Hin. destruct (HJ _ _ Hin) as (x & Hx & Hp).
    destruct (Hle _ _ Hx) as (x' & Hx' & _ & Hd & _).
    exists x'. split; [done|congruence]. }
  intros t a Hin.
  destruct l; simpl in H; step_inv H; frame_all;
    rewrite ?elem_of_app, ?list_elem_of_singleton in Hin;
    try (by apply Hold);
    repeat match goal with Hin : _ \/ _ |- _ => destruct Hin as [Hin|Hin] end;
    simplify_eq; try (by apply Hold).
  all: eexists; split; [by apply lookup_alter_Some|]; simpl; eauto.
Qed.

Lemma download_owner_reachable m ds s : reachable (boot m ds) s -> download_owner s.
Proof.
  intros Hr. induction Hr as [|l s s' Hr IH H].
  - intros t l Hin. simpl in Hin. by apply not_elem_of_nil in Hin.
  - by eapply download_owner_step.
Qed.

(** *** Every transfer *)

Lemma downloads_app t h h' : downloads t (h ++ h') = downloads t h + downloads t h'.
Proof. induction h as [|e h IH]; simpl; [done|]. rewrite IH. lia. Qed.
#[local] Abbreviation xfer_ok := (xfer_ok FromBytes maxDownloadAttempts).
#[local] Abbreviation xfers_ok := (xfers_ok FromBytes maxDownloadAttempts).

Lemma xfer_ok_snoc h e sts tid x :
  is_download tid e = false -> xfer_ok h sts tid x -> xfer_ok (h ++ [e]) sts tid x.
Proof.
  intros He (H1 & H2 & H3 & H4 & H5 & H6 & H7 & H8).
  unfold xfer_ok. rewrite downloads_app. simpl. rewrite He.
  split_and!; try done; try lia.
  - intros l d Hp. apply elem_of_app. left. by eapply H2.
  - intros l d Hp. destruct (H8 _ _ Hp) as [[? ?]|?]; [left|by right].
    split; [done|]. apply elem_of_app. by left.
Qed.

Lemma xfer_ok_signal h sts tid x : xfer_ok h sts tid x -> xfer_ok h sts tid (signal x).
Proof. intros (H1 & H2). by split. Qed.

Lemma downloads_none t h : (forall a, EvDownload t a ∉ h) -> downloads t h = 0.
Proof.
  induction h as [|e h IH]; simpl; [done|]. intros Hn.
  rewrite IH by (intros a Ha; apply (Hn a); by right).
  destruct e as [t' a'| |]; simpl; try done.
  case_bool_decide; [subst|done]. exfalso. apply (Hn a'). by left.
Qed.

Lemma xfer_ok_new s K a p b c :
  download_owner s -> xfer_ok (history s) (statics s) (length (xfers s))
                        (MkTransfer K a p b Start 0 c).
Proof.
  intros HF. unfold xfer_ok, download_bound; simpl. split_and!; try done; try lia.
  apply downloads_none. intros a' (x & Hx%lookup_lt_Some & _)%HF. lia.
Qed.

Lemma mockTarStream_tar d :
  mockDownloadDescriptor.mockTarStream d = NewBuffer (tar (mockDownloadDescriptor.id d)).
Proof. done. Qed.

Lemma Download_finish_stream d d' r :
  mockDownloadDescriptor.Download_finish d = (d', Ok r) ->
  r = NewBuffer (tar (mockDownloadDescriptor.id d)).
Proof.
  unfold mockDownloadDescriptor.Download_finish. case_decide; [done|].
  by intros [= <- <-].
Qed.

Lemma wf_xfer_key s tid x d :
  wf s -> xfers s !! tid = Some x -> descs s !! t_desc x = Some d ->
  mockDownloadDescriptor.id d = t_key x.
Proof.
  intros (_ & Hwx & _) Hx Hd.
  destruct (Forall_lookup_1 _ _ _ _ Hwx Hx) as (st & Hst & Hk).
  rewrite (statics_lookup _ _ _ Hd) in Hst. by simplify_eq.
Qed.

Lemma xfers_ok_step l s s' :
  wf s -> download_owner s -> xfers_ok s -> step l s = Some s' -> xfers_ok s'.
Proof.
  intros Hwf HF Hok H tid x' Hx'.
  rewrite (step_statics _ _ _ H).
  destruct l; simpl in H; step_inv H; frame_all; inv_lookup Hx';
    try (by repeat (apply xfer_ok_snoc; [simpl; by rewrite ?bool_decide_eq_false_2|]);
            first [apply xfer_ok_signal, Hok|apply Hok]);
    try (by first [apply xfer_ok_signal|idtac]; apply xfer_ok_new);
    try (match goal with Hx : xfers s !! _ = Some ?x |- _ =>
           pose proof (Hok _ _ Hx) as (Ok1 & Ok2 & Ok3 & Ok4 & Ok5 & Ok6 & Ok7 & Ok8);
           pose proof (fun d => wf_xfer_key _ _ _ d Hwf Hx) as Hkey
         end;
         simplify_eq;
         unfold xfer_ok; rewrite ?downloads_app; simpl; rewrite ?bool_decide_eq_true_2 by done;
         split_and!; try done; try lia; try (intros; simplify_eq; done);
         try (intros [|]; discriminate);
         try (intros _; by first [apply Ok6; auto|left; apply Ok6; auto|right]);
         try (intros; simplify_eq; rewrite ?elem_of_app, ?list_elem_of_singleton; by auto)).
  - (* the already-known shortcut *)
    intros l d [= <- <-]. right. exists (desc_static t1).
    split; [by apply statics_lookup|].
    unfold mockDownloadDescriptor.DiffID in *.
    destruct (decide (mockDownloadDescriptor.diffID t1 <> "")); by simplify_eq.
  - (* one more call of Download *)
    unfold download_bound. destruct Ok5 as [?|?]; [done|lia..].
  - (* the stream of the descriptor *)
    intros r [= <-].
    match goal with Hd : descs s !! _ = Some ?d |- _ => rewrite <- (Hkey _ Hd) end.
    by eapply Download_finish_stream.
  - intros l0 d0 [= <- <-]. left.
    match goal with Hr : Register _ _ _ _ = _ |- _ =>
      apply Register_Ok_inv in Hr as (dd & cc & pp & _ & _ & Hd & _ & -> & ->) end.
    simpl in *. rewrite lookup_last in *. simplify_eq. simpl.
    match goal with Hp : t_phase _ = AwaitParent _ |- _ => rewrite (Ok7 _ Hp) in Hd end.
    split; [done|].
    rewrite !elem_of_app, !list_elem_of_singleton. auto.
  - intros l0 d0 [= <- <-]. left.
    match goal with Hr : Register _ _ _ _ = _ |- _ =>
      apply Register_Ok_inv in Hr as (dd & cc & pp & _ & _ & Hd & _ & -> & ->) end.
    simpl in *. rewrite lookup_last in *. simplify_eq. simpl.
    match goal with Hp : t_phase _ = AwaitParent _ |- _ => rewrite (Ok7 _ Hp) in Hd end.
    split; [done|].
    rewrite !elem_of_app, !list_elem_of_singleton. auto.
Qed.

Lemma xfers_ok_reachable m ds s : reachable (boot m ds) s -> xfers_ok s.
Proof.
  intros Hr. induction Hr as [|l s s' Hr IH H]; [by intros tid x|].
  eapply xfers_ok_step; [| |done..].
  - by eapply wf_reachable.
  - by eapply download_owner_reachable.
Qed.

End ManagerFacts.
(** ** The calls of the manager *)

Section ManagerCalls.

Variable FromBytes : string -> exec Digest.
Variable maxConcurrency : nat.
Variable maxDownloadAttempts : nat.

#[local] Abbreviation step := (step FromBytes maxConcurrency maxDownloadAttempts).
#[local] Abbreviation run := (run FromBytes maxConcurrency maxDownloadAttempts).
#[local] Abbreviation reachable := (reachable FromBytes maxConcurrency maxDownloadAttempts).
#[local] Abbreviation xfer_ok := (xfer_ok FromBytes maxDownloadAttempts).
#[local] Abbreviation xfers_ok := (xfers_ok FromBytes maxDownloadAttempts).

(** *** Every call *)

Lemma result_in_le xs xs' w d :
  xl_le xs xs' -> result_in xs w = Some d -> result_in xs' w = Some d.
Proof.
  unfold result_in. intros Hle.
  destruct (xs !! w_xfer w) as [t|] eqn:Ht; [|done].
  destruct (Hle _ _ Ht) as (t' & -> & _ & _ & _ & _ & _ & _ & Hterm).
  destruct (t_phase t) eqn:Hp; try done.
  by destruct Hterm as [-> _].
Qed.

Lemma call_ok_mono xs xs' h h' cl :
  xl_le xs xs' -> (forall e, e ∈ h -> e ∈ h') ->
  call_ok xs h cl -> call_ok xs' h' cl.
Proof.
  intros Hle Hh (H1 & H2 & H3). split_and!; [| |done].
  - intros r Hr. destruct (H1 _ Hr) as (ds & -> & HF). exists ds. split; [done|].
    eapply Forall2_impl; [done|]. intros w d. by apply result_in_le.
  - intros k w a Hk Hw Ha. destruct (H2 _ _ _ Hk Hw Ha) as (d & Hd & Hin).
    exists d. split; [by eapply result_in_le|auto].
Qed.

(** Changes of a call that keep its result, its position and the transfers
    of its watchers. *)
Lemma call_ok_watchers xs h cl cl' :
  c_result cl' = c_result cl -> c_initial cl' = c_initial cl ->
  c_descs cl' = c_descs cl -> c_pos cl' = c_pos cl ->
  w_xfer <$> c_watchers cl' = w_xfer <$> c_watchers cl ->
  (c_ctx cl' = c_ctx cl \/ c_result cl = None) ->
  call_ok xs h cl -> call_ok xs h cl'.
Proof.
  intros Er Ei Ed Ep Ew Ec (H1 & H2 & H3).
  assert (Hw : forall k w', c_watchers cl' !! k = Some w' ->
            exists w, c_watchers cl !! k = Some w /\ result_in xs w' = result_in xs w).
  { intros k w' Hk.
    assert (Hx : (w_xfer <$> c_watchers cl) !! k = Some (w_xfer w'))
      by (by rewrite <- Ew, list_lookup_fmap, Hk).
    rewrite list_lookup_fmap in Hx. destruct (c_watchers cl !! k) as [w|]; [|done].
    exists w. split; [done|]. unfold result_in. by injection Hx as ->. }
  split_and!.
  - rewrite Er, Ei. intros r Hr. destruct (H1 _ Hr) as (ds & -> & HF).
    exists ds. split; [done|]. apply Forall2_same_length_lookup. split.
    + apply Forall2_length in HF. rewrite <- HF.
      by rewrite <- (length_fmap w_xfer (c_watchers cl')), Ew, length_fmap.
    + intros k w' d Hk Hd. destruct (Hw _ _ Hk) as (w & Hwk & ->).
      by eapply (Forall2_lookup_lr _ _ _ _ _ _ HF).
  - rewrite Ep, Ed. intros k w' a Hk Hw' Ha. destruct (Hw _ _ Hw') as (w & Hwk & ->).
    by eapply H2.
  - rewrite Er. intros e He Hr. destruct Ec as [Ec|Ec]; [|congruence].
    apply H3; congruence.
Qed.

Lemma call_ok_attach xs h cl w0 :
  c_result cl = None -> c_pos cl <= length (c_watchers cl) ->
  call_ok xs h cl -> call_ok xs h (set_watchers (c_watchers cl ++ [w0]) cl).
Proof.
  intros Hr Hp (H1 & H2 & H3). split_and!; simpl; [by rewrite Hr| |done].
  intros k w a Hk [[_ Hw]|[-> _]]%lookup_snoc_Some Ha; [by eapply H2|lia].
Qed.

Lemma call_ok_fail xs h cl ws e :
  c_result cl = None -> w_xfer <$> ws = w_xfer <$> c_watchers cl ->
  call_ok xs h cl ->
  call_ok xs h (set_result (Err (if c_ctx cl then Canceled else e)) (set_watchers ws cl)).
Proof.
  intros Hr Ew Hok.
  assert (Hok' : call_ok xs h (set_watchers ws cl))
    by (eapply call_ok_watchers; [..|exact Hok]; auto).
  destruct Hok' as (H1 & H2 & H3). split_and!; simpl in *; [done|done|].
  intros e' -> [= <-]. done.
Qed.

Lemma call_ok_return xs h cl ds :
  c_result cl = None ->
  mapM (result_in xs) (c_watchers cl) = Some ds ->
  call_ok xs h cl -> call_ok xs h (set_result (Ok (c_initial cl ++ ds)) cl).
Proof.
  intros Hr Hm (H1 & H2 & H3). split_and!; simpl; [|done|done].
  intros r [= <-]. exists ds. split; [done|]. by apply mapM_Some.
Qed.

Lemma call_ok_advance xs h cl w a d :
  c_watchers cl !! c_pos cl = Some w -> c_descs cl !! c_pos cl = Some a ->
  result_in xs w = Some d -> EvRegistered a d ∈ h ->
  call_ok xs h cl -> call_ok xs h (advance cl).
Proof.
  intros Hw Ha Hd Hin (H1 & H2 & H3). split_and!; simpl; [done| |done].
  intros k w' a' Hk Hw' Ha'. destruct (decide (k = c_pos cl)) as [->|].
  - simplify_eq. by exists d.
  - apply (H2 k w' a'); [lia|done..].
Qed.

Lemma calls_ok_step l s s' :
  wf s -> xfers_ok s -> calls_ok s -> step l s = Some s' -> calls_ok s'.
Proof.
  intros Hwf Hxok Hok H. unfold calls_ok in *.
  pose proof (step_xfers_le _ _ _ _ _ _ H) as Hle.
  destruct (step_history _ _ _ _ _ _ H) as [evs Hh].
  assert (Hmono : forall cl, call_ok (xfers s) (history s) cl ->
            call_ok (xfers s') (history s') cl).
  { intros cl. apply call_ok_mono; [done|]. intros e He. rewrite Hh.
    apply elem_of_app. by left. }
  pose proof (Forall_impl _ _ _ Hok Hmono) as Hok'.
  clear Hmono Hh Hok.
  destruct Hwf as (Hwc & _ & _).
  destruct l; simpl in H; step_inv H; frame_all; rewrite ?list_alter_alter_eq;
    try done;
    try (apply Forall_alter; [done|]; intros cl Hcl Hcok;
         pose proof (Forall_lookup_1 _ _ _ _ Hwc Hcl) as (Wd & Wx & Wl & Wp & Wq & Wr & Wo);
         simplify_eq).
  - apply Forall_app. split; [done|]. apply Forall_singleton.
    split_and!; simpl; [done| |done]. intros; lia.
  - eapply call_ok_watchers; [..|exact Hcok]; simpl; auto using w_xfer_cancel.
  - eapply call_ok_watchers; [..|exact Hcok]; simpl; auto using w_xfer_release.
  - by apply call_ok_attach.
  - by apply call_ok_attach.
  - by apply call_ok_attach.
  - by apply call_ok_attach.
  - eapply call_ok_advance; [done|done| | |done].
    + unfold result_in. by repeat match goal with H : _ = _ |- _ => rewrite H end.
    + match goal with Hx : xfers s !! _ = Some ?t |- _ =>
        destruct (Hxok _ _ Hx) as (_ & Ok2 & _) end. by eapply Ok2.
  - eapply call_ok_watchers; [..|by apply call_ok_fail, Hcok; [|apply w_xfer_fail_mark]];
      simpl; auto using w_xfer_release.
  - eapply call_ok_advance; [done|done| | |done].
    + unfold result_in. by repeat match goal with H : _ = _ |- _ => rewrite H end.
    + apply elem_of_app. right. by apply list_elem_of_singleton.
  - eapply call_ok_watchers; [..|by apply call_ok_fail, Hcok; [|apply w_xfer_fail_mark]];
      simpl; auto using w_xfer_release.
  - eapply call_ok_watchers; [..|by apply call_ok_fail, Hcok; [|apply w_xfer_fail_mark]];
      simpl; auto using w_xfer_release.
  - eapply call_ok_watchers; [..|by apply call_ok_fail, Hcok; [|apply w_xfer_fail_mark]];
      simpl; auto using w_xfer_release.
  - by apply call_ok_return.
Qed.

Lemma calls_ok_reachable m ds s : reachable (boot m ds) s -> calls_ok s.
Proof.
  induction 1 as [|l s s' Hr IH Hs]; [by apply Forall_nil|].
  eapply calls_ok_step; [| | |done]; [by eapply wf_reachable|by eapply xfers_ok_reachable|done].
Qed.

(** *** Cancellation *)

Lemma w_cancel_release (ws : list watcher) :
  Forall (fun w => w_cancel w = true) ws ->
  Forall (fun w => w_cancel w = true) (release_watcher <$> ws).
Proof. intros Hws. apply Forall_fmap. by eapply Forall_impl. Qed.

Lemma w_cancel_fail_mark n (ws : list watcher) :
  Forall (fun w => w_cancel w = true) ws ->
  Forall (fun w => w_cancel w = true)
    (imap (fun i w => if decide (n < i) then cancel_watcher w else w) ws).
Proof.
  intros Hws. apply Forall_lookup. intros i w'. rewrite list_lookup_imap.
  destruct (ws !! i) as [w|] eqn:Hw; simpl; [|done]. intros [= <-].
  case_decide; [done|]. by eapply (Forall_lookup_1 _ _ _ _ Hws).
Qed.

Lemma ctx_watchers_step l s s' : ctx_watchers s -> step l s = Some s' -> ctx_watchers s'.
Proof.
  intros IH H c' cl' Hc' Hctx.
  destruct l; simpl in H; step_inv H; frame_all; rewrite ?list_alter_alter_eq in Hc';
    try (by eapply IH);
    inv_lookup Hc'; simpl in *; try done;
    first
      [ by apply Forall_fmap, Forall_true
      | apply Forall_app; split; [by eapply IH|by apply Forall_singleton]
      | apply w_cancel_release; try apply w_cancel_fail_mark; by eapply IH
      | by eapply IH ].
Qed.

Lemma ctx_watchers_reachable m ds s : reachable (boot m ds) s -> ctx_watchers s.
Proof.
  induction 1 as [|l s s' Hr IH Hs]; [by intros c cl|]. by eapply ctx_watchers_step.
Qed.

Lemma elem_of_all_watchers s w :
  w ∈ all_watchers s <-> exists c cl, calls s !! c = Some cl /\ w ∈ c_watchers cl.
Proof.
  unfold all_watchers. rewrite list_elem_of_join. split.
  - intros (ws & Hw & (cl & -> & (c & Hc)%list_elem_of_lookup_1)%list_elem_of_fmap). eauto.
  - intros (c & cl & Hc & Hw). exists (c_watchers cl). split; [done|].
    apply list_elem_of_fmap. exists cl. split; [done|]. by eapply list_elem_of_lookup_2.
Qed.

Lemma all_cancelled_true s tid :
  all_cancelled s tid = true <->
  (exists w, w ∈ all_watchers s /\ attached tid w = true) /\
  (forall w, w ∈ all_watchers s -> attached tid w = true -> w_cancel w = true).
Proof.
  unfold all_cancelled. rewrite andb_true_iff, bool_decide_eq_true, forallb_forall.
  split.
  - intros [Hne Hall]. split.
    + destruct (filter _ _) as [|w ws] eqn:Hf; [done|]. exists w.
      assert (Hin : w ∈ filter (fun w => attached tid w = true) (all_watchers s))
        by (rewrite Hf; by left).
      by apply list_elem_of_filter in Hin as [? ?].
    + intros w Hw Ha. apply Hall, list_elem_of_In, list_elem_of_filter. done.
  - intros [(w & Hw & Ha) Hall]. split.
    + intros Hf. assert (Hin : w ∈ filter (fun w => attached tid w = true) (all_watchers s))
        by by apply list_elem_of_filter.
      rewrite Hf in Hin. by apply not_elem_of_nil in Hin.
    + intros w' [Ha' Hw']%list_elem_of_In%list_elem_of_filter. by apply Hall.
Qed.

Lemma union_resignal s : union_cancelled (resignal s).
Proof.
  intros tid x Hx Hall. simpl in Hx. rewrite list_lookup_imap in Hx.
  destruct (xfers s !! tid) as [t|]; simpl in Hx; [|done].
  change (all_cancelled (resignal s) tid) with (all_cancelled s tid) in Hall.
  rewrite Hall in Hx. injection Hx as <-. by left.
Qed.

Lemma union_ext s s' :
  union_cancelled s -> all_watchers s' = all_watchers s ->
  length (xfers s') = length (xfers s) -> xl_le (xfers s) (xfers s') ->
  union_cancelled s'.
Proof.
  intros IH Hw Hlen Hle tid x' Hx' Hall.
  assert (Hlt : tid < length (xfers s)) by (rewrite <- Hlen; by eapply lookup_lt_Some).
  destruct (lookup_lt_is_Some_2 _ _ Hlt) as [x Hx].
  destruct (Hle _ _ Hx) as (x'' & Hx'' & _ & _ & _ & _ & _ & Hctx & Hterm).
  simplify_eq.
  destruct (IH tid x Hx) as [Hc|Ht].
  - unfold all_cancelled in *. by rewrite <- Hw.
  - left. auto.
  - right. destruct (Hterm Ht) as [-> _]. done.
Qed.

(** The watchers a call has waited for are on finished transfers. *)
Lemma awaited_terminal xs h nx nd cl i w :
  call_ok xs h cl -> wf_call nx nd cl -> c_watchers cl !! i = Some w -> i < c_pos cl ->
  exists x, xs !! w_xfer w = Some x /\ terminal (t_phase x) = true.
Proof.
  intros (_ & H2 & _) (_ & _ & Wl & _) Hw Hi.
  assert (Hlt : i < length (c_descs cl)) by (apply lookup_lt_Some in Hw; lia).
  destruct (lookup_lt_is_Some_2 _ _ Hlt) as [a Ha].
  destruct (H2 _ _ _ Hi Hw Ha) as (d & Hd & _). unfold result_in in Hd.
  destruct (xs !! w_xfer w) as [x|]; [|done]. exists x. split; [done|].
  by destruct (t_phase x).
Qed.

Lemma union_release c cl s :
  union_cancelled s -> calls s !! c = Some cl ->
  (forall w, w ∈ c_watchers cl -> w_released w = false -> w_cancel w = false ->
     exists x, xfers s !! w_xfer w = Some x /\ terminal (t_phase x) = true) ->
  union_cancelled (release_all c s).
Proof.
  intros IH Hc Hterm tid x Hx Hall. rewrite release_all_xfers in Hx.
  apply all_cancelled_true in Hall as [(w0 & Hw0 & Ha0) Hall].
  destruct (decide (Exists (fun w => attached tid w = true /\ w_cancel w = false)
                      (c_watchers cl))) as [Hex|Hno].
  - apply Exists_exists in Hex as (w & Hw & Ha & Hn).
    unfold attached in Ha. apply andb_true_iff in Ha as [Hrel Htid].
    apply negb_true_iff in Hrel. apply bool_decide_eq_true in Htid. subst tid.
    destruct (Hterm _ Hw Hrel Hn) as (x' & Hx' & Ht). simplify_eq. by right.
  - apply (IH tid x Hx). apply all_cancelled_true.
    assert (Hother : forall w c' cl', c' <> c -> calls s !! c' = Some cl' ->
              w ∈ c_watchers cl' -> w ∈ all_watchers (release_all c s)).
    { intros w c' cl' Hne Hc' Hw. apply elem_of_all_watchers. exists c', cl'.
      split; [|done]. rewrite release_all_calls, list_lookup_alter_ne; done. }
    split.
    + exists w0. split; [|done].
      apply elem_of_all_watchers in Hw0 as (c' & cl' & Hc' & Hw').
      rewrite release_all_calls in Hc'.
      apply lookup_alter_inv in Hc' as [(-> & cl0 & Hcl0 & ->)|[Hne Hc']].
      * simpl in Hw'. apply list_elem_of_fmap in Hw' as (w & -> & _).
        by unfold attached in Ha0.
      * apply elem_of_all_watchers. eauto.
    + intros w (c' & cl' & Hc' & Hw)%elem_of_all_watchers Ha.
      destruct (decide (c' = c)) as [->|Hne]; [|by eauto].
      simplify_eq. destruct (w_cancel w) eqn:Hn; [done|].
      destruct Hno. apply Exists_exists. eauto.
Qed.

End ManagerCalls.

(** * Further properties of the layer store *)

Section StoreFacts.

Variable FromBytes : string -> exec Digest.

#[local] Abbreviation chain := (createChainIDFromParent FromBytes).
#[local] Abbreviation Register := (Register FromBytes).

(** *** Chain IDs *)

Lemma chain_app_eq parent ds1 ds2 :
  chain parent (ds1 ++ ds2) =
  match chain parent ds1 with Ok c => chain c ds2 | r => r end.
Proof.
  revert parent. induction ds1 as [|d ds1 IH]; intros parent; simpl; [done|].
  destruct (decide (parent = "")); [apply IH|].
  destruct (FromBytes _); [apply IH|done..].
Qed.

Lemma chain_not_Err parent ds e : chain parent ds <> Err e.
Proof.
  revert parent. induction ds as [|d ds IH]; intros parent; simpl; [done|].
  destruct (decide (parent = "")); [apply IH|].
  destruct (FromBytes _); [apply IH|done..].
Qed.

(** X1. The chain ID of a list of DiffIDs can be computed in pieces: the
    chain ID of the first piece is the parent of the rest.  So a stack is
    extended by one layer by chaining the new DiffID on the ChainID of the
    stack, and the list can be cut at any index. *)
Theorem createChainIDFromParent_app (parent : ChainID) (ds1 ds2 : list DiffID)
    (d : DiffID) (n : nat) :
  chain parent (ds1 ++ ds2) =
    match chain parent ds1 with Ok c => chain c ds2 | r => r end /\
  chain parent (ds1 ++ [d]) =
    match chain parent ds1 with Ok c => chain c [d] | r => r end /\
  chain parent ds1 =
    match chain parent (take n ds1) with Ok c => chain c (drop n ds1) | r => r end.
Proof.
  split_and!.
  - apply chain_app_eq.
  - apply chain_app_eq.
  - rewrite <- (take_drop n ds1) at 1. apply chain_app_eq.
Qed.

(** X2. [createChainIDFromParent] has no error to return: a digest that
    fails makes it panic with the error of the digest, and it panics for no
    other reason; with a digest that never fails it returns a ChainID for
    every parent and every list. *)
Theorem createChainIDFromParent_panics_only_on_digest (parent : ChainID) (ds : list DiffID) :
  (forall e, chain parent ds <> Err e) /\
  (forall e, chain parent ds = Panic e ->
     exists p d, d ∈ ds /\ p <> "" /\
       (FromBytes (p +:+ " " +:+ d) = Err e \/ FromBytes (p +:+ " " +:+ d) = Panic e)) /\
  ((forall b, is_Ok (FromBytes b) = true) -> is_Ok (chain parent ds) = true).
Proof.
  split_and!.
  - intros e. apply chain_not_Err.
  - revert parent. induction ds as [|d ds IH]; intros parent e; simpl; [done|].
    destruct (decide (parent = "")) as [->|Hne].
    + intros (p & d' & Hin & H)%IH. exists p, d'. split; [by right|done].
    + destruct (FromBytes (parent +:+ " " +:+ d)) as [h|e'|e'] eqn:Hd.
      * intros (p & d' & Hin & H)%IH. exists p, d'. split; [by right|done].
      * intros [= <-]. exists parent, d. split; [by left|]. split; [done|]. by left.
      * intros [= <-]. exists parent, d. split; [by left|]. split; [done|]. by right.
  - intros Hok. revert parent. induction ds as [|d ds IH]; intros parent; simpl; [done|].
    destruct (decide (parent = "")); [apply IH|].
    specialize (Hok (parent +:+ " " +:+ d)).
    destruct (FromBytes (parent +:+ " " +:+ d)); [apply IH|done..].
Qed.

(** X3. An empty parent stands for no parent, and an empty ChainID is
    taken for one: with an empty parent the empty DiffIDs at the head of the
    list are skipped, so lists that differ only there get the same ChainID,
    and the first DiffID that is not empty is passed on without hashing. *)
Theorem createChainIDFromParent_skips_empty (n : nat) (d : DiffID) (ds : list DiffID) :
  chain "" (replicate n "" ++ ds) = chain "" ds /\
  chain "" (replicate n "") = Ok "" /\
  chain "" (replicate n "" ++ [d]) = Ok d /\
  chain "" (replicate n "" ++ d :: ds) = chain d ds.
Proof.
  assert (H : forall ds', chain "" (replicate n "" ++ ds') = chain "" ds').
  { intros ds'. induction n as [|n IH]; simpl; [done|]. by rewrite ?decide_True. }
  split_and!.
  - apply H.
  - rewrite <- (app_nil_r (replicate n "")). by rewrite H.
  - rewrite H. simpl. by rewrite ?decide_True.
  - rewrite H. simpl. by rewrite ?decide_True.
Qed.

(** *** Registration *)

Lemma Get_unfold c m :
  Get c m =
  (match layers (ls m) !! c with Some l => Ok l | None => Err ErrLayerDoesNotExist end, m).
Proof. unfold Get. by destruct (layers (ls m) !! c). Qed.

Lemma Register_Err_inv reader parentID m e m' :
  Register reader parentID m = (Err e, m') ->
  (parentID <> "" /\ layers (ls m) !! parentID = None /\ e = ErrLayerDoesNotExist /\ m' = m) \/
  (exists par o, resolve_parent parentID m = Ok par /\ m' = MkMem (objs m ++ [o]) (ls m) /\
     (r_err reader = Some e \/
      (r_err reader = None /\ FromBytes (r_bytes reader) = Err e))).
Proof.
  rewrite Register_unfold.
  destruct (resolve_parent parentID m) as [par|e'|e'] eqn:Hpar.
  - destruct (r_err reader) as [e'|] eqn:Herr.
    { intros [= <- <-]. right. eauto 6. }
    destruct (FromBytes (r_bytes reader)) as [d|e'|e'] eqn:Hd; [|intros [= <- <-]; right; eauto 7|done].
    destruct (createChainIDFromParent FromBytes parentID [d]) as [c|e'|e'] eqn:Hc; [done| |done].
    by apply chain_not_Err in Hc.
  - unfold resolve_parent in Hpar. destruct (decide (parentID = "")); [done|].
    destruct (layers (ls m) !! parentID) eqn:Hl; [done|]. injection Hpar as <-.
    intros [= <- <-]. by left.
  - unfold resolve_parent in Hpar. destruct (decide (parentID = "")); [done|].
    by destruct (layers (ls m) !! parentID).
Qed.

(** X4. A call of [Register] that returns an error leaves the mapping of
    the store as it was and touches no layer that existed.  The error is one
    of three: the not-found error of [Get] for a parent ChainID that is not
    empty and not held (then nothing at all has changed), the error that
    ended the reader, or the error of the digest of the bytes read. *)
Theorem Register_error_keeps_store reader parentID m e m' :
  Register reader parentID m = (Err e, m') ->
  layers (ls m') = layers (ls m) /\
  (forall l o, objs m !! l = Some o -> objs m' !! l = Some o) /\
  (forall c, Get c m' = ((Get c m).1, m')) /\
  ((parentID <> "" /\ layers (ls m) !! parentID = None /\
    e = ErrLayerDoesNotExist /\ m' = m) \/
   r_err reader = Some e \/
   (r_err reader = None /\ FromBytes (r_bytes reader) = Err e)).
Proof.
  intros [(Hne & Hnone & -> & ->)|(par & o & Hpar & -> & Hwhy)]%Register_Err_inv.
  - split_and!; [done|done| |by left]. intros c. by rewrite Get_unfold.
  - split_and!; simpl; [done| | |by right].
    + intros l o' Hl. by apply lookup_app_l_Some.
    + intros c. by rewrite !Get_unfold.
Qed.

(** X5. Round trip of [Register] and [Get]: after a successful [Register]
    the store answers the ChainID of the returned layer with that layer, also
    after the layer was released, since the mock store counts no references;
    every other ChainID is answered as before. *)
Theorem Register_then_Get reader parentID m l m' :
  Register reader parentID m = (Ok l, m') ->
  exists c, ml.ChainID l m' = (Ok c, m') /\
    Get c m' = (Ok l, m') /\
    (@store.Release unit (Some l) ;;; Get c) m' = (Ok l, m') /\
    (store.Cleanup ;;; Get c) m' = (Ok l, m') /\
    (forall c', c' <> c -> Get c' m' = ((Get c' m).1, m')).
Proof.
  intros (d & c & par & Hpar & Herr & Hd & Hc & -> & ->)%Register_Ok_inv.
  exists c.
  assert (HG : Get c (MkMem (objs m ++ [MockLayer (r_bytes reader) d c par])
                        (MockLayerStore (<[c:=length (objs m)]> (layers (ls m))))) =
               (Ok (length (objs m)), MkMem (objs m ++ [MockLayer (r_bytes reader) d c par])
                        (MockLayerStore (<[c:=length (objs m)]> (layers (ls m)))))).
  { unfold Get; simpl. by rewrite lookup_insert_eq. }
  split_and!.
  - unfold ml.ChainID, bind, deref, ret; simpl. by rewrite lookup_last.
  - done.
  - exact HG.
  - exact HG.
  - intros c' Hne. rewrite !Get_unfold. simpl. by rewrite lookup_insert_ne.
Qed.

(** X6. [Register] is not idempotent.  When a call has succeeded, the same
    call made again succeeds too, but allocates another layer: the two layers
    are different objects with the same bytes, DiffID and ChainID, the store
    now answers their ChainID with the second one, and the first one is still
    there, unchanged. *)
Theorem Register_twice reader parentID m l1 m1 :
  Register reader parentID m = (Ok l1, m1) ->
  exists l2 m2 o1 o2,
    Register reader parentID m1 = (Ok l2, m2) /\
    l2 <> l1 /\
    objs m1 !! l1 = Some o1 /\ objs m2 !! l1 = Some o1 /\ objs m2 !! l2 = Some o2 /\
    layerData o2 = layerData o1 /\ diffID o2 = diffID o1 /\ chainID o2 = chainID o1 /\
    Get (chainID o1) m1 = (Ok l1, m1) /\
    Get (chainID o1) m2 = (Ok l2, m2).
Proof.
  intros (d & c & par & Hpar & Herr & Hd & Hc & Hl & Hm)%Register_Ok_inv.
  assert (Hpar1 : exists par1, resolve_parent parentID m1 = Ok par1).
  { unfold resolve_parent in *. destruct (decide (parentID = "")); [by eauto|].
    rewrite Hm. simpl. destruct (decide (parentID = c)) as [->|Hne].
    - rewrite lookup_insert_eq. eauto.
    - rewrite lookup_insert_ne by done.
      destruct (layers (ls m) !! parentID); [eauto|done]. }
  destruct Hpar1 as [par1 Hpar1].
  assert (Ho1 : objs m1 !! l1 = Some (MockLayer (r_bytes reader) d c par))
    by (rewrite Hm, Hl; apply lookup_last).
  exists (length (objs m1)), (MkMem (objs m1 ++ [MockLayer (r_bytes reader) d c par1])
    (MockLayerStore (<[c:=length (objs m1)]> (layers (ls m1))))),
    (MockLayer (r_bytes reader) d c par), (MockLayer (r_bytes reader) d c par1).
  split_and!; try done.
  - by rewrite Register_unfold, Hpar1, Herr, Hd, Hc.
  - apply lookup_lt_Some in Ho1. lia.
  - simpl. by apply lookup_app_l_Some.
  - apply lookup_last.
  - rewrite Get_unfold, Hm. simpl. by rewrite lookup_insert_eq, Hl.
  - rewrite Get_unfold. simpl. by rewrite lookup_insert_eq.
Qed.

(** *** The stacks of the store *)

Lemma stack_app os os' l ds :
  stack FromBytes os l ds -> stack FromBytes (os ++ os') l ds.
Proof.
  induction 1 as [l o Ho Hp Hd|l o p ds Ho Hp Hd Hs IH].
  - apply stack_root; [by apply lookup_app_l_Some|done..].
  - eapply stack_child; [by apply lookup_app_l_Some|done..].
Qed.

Lemma store_ok_empty : store_ok FromBytes empty_store.
Proof. intros c l Hl. simpl in Hl. by rewrite lookup_empty in Hl. Qed.

Lemma store_ok_grow os lm o :
  store_ok FromBytes (MkMem os lm) -> store_ok FromBytes (MkMem (os ++ [o]) lm).
Proof.
  intros Hok c l Hl. destruct (Hok c l Hl) as (o' & ds & Ho & Hc & Hs & Hch).
  exists o', ds. simpl in *. split_and!; [by apply lookup_app_l_Some|done| |done].
  by apply stack_app.
Qed.

Lemma store_ok_Register reader parentID m :
  store_ok FromBytes m -> store_ok FromBytes (Register reader parentID m).2.
Proof.
  intros Hok. rewrite Register_unfold. destruct m as [os lm].
  destruct (resolve_parent parentID (MkMem os lm)) as [par| |] eqn:Hpar; [|done..].
  cbv zeta. destruct (r_err reader) eqn:Herr; [simpl; by apply store_ok_grow|].
  destruct (FromBytes (r_bytes reader)) as [d| |] eqn:Hd;
    [|simpl; by apply store_ok_grow..].
  destruct (createChainIDFromParent FromBytes parentID [d]) as [c| |] eqn:Hc;
    [|simpl; by apply store_ok_grow..].
  intros c' l. simpl. destruct (decide (c' = c)) as [->|Hne].
  - rewrite lookup_insert_eq. intros [= <-].
    unfold resolve_parent in Hpar. simpl in Hpar.
    destruct (decide (parentID = "")) as [->|Hnp].
    + injection Hpar as <-. simpl in Hc. injection Hc as <-.
      exists (MockLayer (r_bytes reader) d d None), [d].
      split_and!; [apply lookup_last|done| |done].
      by apply (stack_root _ _ _ (MockLayer (r_bytes reader) d d None)); [apply lookup_last|..].
    + destruct (layers lm !! parentID) as [p|] eqn:Hp; [|done]. injection Hpar as <-.
      destruct (Hok _ _ Hp) as (po & ds & Hpo & Hpc & Hs & Hch). simpl in *.
      exists (MockLayer (r_bytes reader) d c (Some p)), (ds ++ [d]).
      split_and!; [apply lookup_last|done| |].
      * apply (stack_child _ _ _ (MockLayer (r_bytes reader) d c (Some p)) p);
          [apply lookup_last|done|done|by apply stack_app].
      * by rewrite chain_app_eq, Hch.
  - rewrite lookup_insert_ne by done. intros Hl.
    destruct (Hok _ _ Hl) as (o' & ds & Ho & Hc' & Hs & Hch). simpl in *.
    exists o', ds. split_and!; [by apply lookup_app_l_Some|done|by apply stack_app|done].
Qed.

(** X7. The methods of the store keep it in order.  If every ChainID the
    store holds is answered with a layer that carries this ChainID, whose
    ancestors exist with the digests of their bytes as DiffIDs, and the
    ChainID is the chain of the DiffIDs of that stack, then the same holds
    after any sequence of calls of [Register], [Get], [Release] and
    [Cleanup], whether they succeed or not.  The empty store is in order. *)
Theorem store_calls_keep_store_ok (m : Mem) (cs : list store_call) :
  store_ok FromBytes empty_store /\
  (store_ok FromBytes m -> store_ok FromBytes (after_calls FromBytes m cs)).
Proof.
  split; [apply store_ok_empty|].
  revert m. induction cs as [|c cs IH]; intros m Hok; [done|].
  apply IH. destruct c as [reader parentID|chainID|l|]; simpl.
  - by apply store_ok_Register.
  - by rewrite Get_unfold.
  - done.
  - done.
Qed.

Lemma stack_last os l ds :
  stack FromBytes os l ds ->
  exists o, os !! l = Some o /\ last ds = Some (diffID o) /\
    FromBytes (layerData o) = Ok (diffID o).
Proof.
  destruct 1 as [l o Ho Hp Hd|l o p ds Ho Hp Hd Hs]; exists o.
  - done.
  - by rewrite last_snoc.
Qed.

(** X8. What [Get] hands out from a store in order: the layer exists, its
    [ChainID] method answers the ChainID asked for, which is the chain of the
    DiffIDs of the layer and its ancestors, its [DiffID] method answers the
    last of them, and that is the digest of the bytes its [TarStream] yields;
    none of these calls panics or changes the memory. *)
Theorem Get_stack c m l :
  store_ok FromBytes m -> (Get c m).1 = Ok l ->
  exists ds d bytes,
    stack FromBytes (objs m) l ds /\
    createChainIDFromParent FromBytes "" ds = Ok c /\
    last ds = Some d /\
    ml.ChainID l m = (Ok c, m) /\
    ml.DiffID l m = (Ok d, m) /\
    ml.TarStream l m = (Ok (NewBuffer bytes), m) /\
    FromBytes bytes = Ok d.
Proof.
  intros Hok HG. unfold Get in HG.
  destruct (layers (ls m) !! c) as [l'|] eqn:Hl; [|done]. simpl in HG. injection HG as ->.
  destruct (Hok _ _ Hl) as (o & ds & Ho & Hc & Hs & Hch).
  destruct (stack_last _ _ _ Hs) as (o' & Ho' & Hlast & Hd). simplify_eq.
  exists ds, (diffID o), (layerData o).
  unfold ml.ChainID, ml.DiffID, ml.TarStream, bind, deref, ret. rewrite Ho.
  by split_and!.
Qed.

(** X9. What the methods of a layer answer after the [Register] that
    returned it: [TarStream] yields exactly the bytes the reader gave, with
    no error, [DiffID] their digest, [ChainID] the chain of the parent
    ChainID and this DiffID, and [Parent] nil for an empty parent ChainID and
    else the layer the store held for it; size and metadata are empty. *)
Theorem Register_then_methods reader parentID m l m' :
  Register reader parentID m = (Ok l, m') ->
  exists d c,
    FromBytes (r_bytes reader) = Ok d /\
    createChainIDFromParent FromBytes parentID [d] = Ok c /\
    ml.TarStream l m' = (Ok (NewBuffer (r_bytes reader)), m') /\
    ml.DiffID l m' = (Ok d, m') /\
    ml.ChainID l m' = (Ok c, m') /\
    ml.Parent l m' =
      (Ok (if decide (parentID = "") then None else layers (ls m) !! parentID), m') /\
    (parentID <> "" -> is_Some (layers (ls m) !! parentID)) /\
    ml.Size l m' = (Ok 0%Z, m') /\ ml.DiffSize l m' = (Ok 0%Z, m') /\
    ml.Metadata l m' = (Ok ∅, m').
Proof.
  intros (d & c & par & Hpar & Herr & Hd & Hc & -> & ->)%Register_Ok_inv.
  exists d, c. split; [done|]. split; [done|]. clear Hc.
  unfold ml.TarStream, ml.DiffID, ml.ChainID, ml.Parent, bind, deref, ret; simpl.
  rewrite lookup_last; simpl.
  unfold resolve_parent in Hpar.
  destruct (decide (parentID = "")) as [->|Hne].
  - injection Hpar as <-. by split_and!.
  - destruct (layers (ls m) !! parentID) as [p|] eqn:Hp; [|done]. injection Hpar as <-.
    by split_and!.
Qed.

End StoreFacts.

(** * The download descriptor of the tests *)

Lemma wrap32_balance c :
  (-2147483648 <= c < 2147483648)%Z -> wrap32 (wrap32 (c + 1) - 1) = c.
Proof.
  intros Hc. unfold wrap32.
  change (2 ^ 31)%Z with 2147483648%Z. change (2 ^ 32)%Z with 4294967296%Z.
  replace ((c + 1 + 2147483648) mod 4294967296 - 2147483648 - 1 + 2147483648)%Z
    with ((c + 1 + 2147483648) mod 4294967296 - 1)%Z by lia.
  rewrite Zminus_mod_idemp_l.
  replace (c + 1 + 2147483648 - 1)%Z with (c + 2147483648)%Z by lia.
  rewrite Z.mod_small; lia.
Qed.

Lemma wrap64_small z :
  (-9223372036854775808 <= z < 9223372036854775808)%Z -> wrap64 z = z.
Proof.
  intros Hz. unfold wrap64.
  change (2 ^ 63)%Z with 9223372036854775808%Z.
  change (2 ^ 64)%Z with 18446744073709551616%Z.
  rewrite Z.mod_small; lia.
Qed.

(** X10. [Download] leaves the shared counter as it found it, however it
    returns: the increment at its entry is undone by the deferred decrement,
    also when the limit was found exceeded, when the context was cancelled
    and when the increment wrapped around. *)
Theorem Download_restores_counter (d : descriptor) (done_at : option nat) (counter : Z) :
  (-2147483648 <= counter < 2147483648)%Z ->
  (mockDownloadDescriptor.Download d done_at counter).1.2 = counter.
Proof.
  intros Hc.
  unfold mockDownloadDescriptor.Download, mockDownloadDescriptor.Download_enter,
    mockDownloadDescriptor.Download_deferred, mockDownloadDescriptor.Download_finish.
  destruct (mockDownloadDescriptor.currentDownloads d).
  - pose proof (wrap32_balance _ Hc) as Hb.
    destruct (wrap32 (counter + 1) >? maxDownloadConcurrency)%Z; simpl; [done|].
    destruct done_at as [i|]; [destruct (decide (i <= 10)); [done|]|];
      by destruct (decide (mockDownloadDescriptor.simulateRetries d <> 0%Z)).
  - simpl. destruct done_at as [i|]; [destruct (decide (i <= 10)); [done|]|];
      by destruct (decide (mockDownloadDescriptor.simulateRetries d <> 0%Z)).
Qed.

(** X11. When [Download] succeeds: exactly when the limit of concurrent
    downloads is not exceeded at its entry (a descriptor without counter
    never exceeds it), the context is not found done in any of the eleven
    ticks of its loop, and no simulated failure is left.  It then returns the
    mock tar stream, five times the ID, and leaves the descriptor as it
    was. *)
Theorem Download_succeeds_iff (d d' : descriptor) (done_at : option nat)
    (counter c' : Z) (stream : Reader) :
  mockDownloadDescriptor.Download d done_at counter = (d', c', Ok stream) <->
  (mockDownloadDescriptor.currentDownloads d = true ->
     (wrap32 (counter + 1) <= maxDownloadConcurrency)%Z) /\
  (forall i, done_at = Some i -> 10 < i) /\
  mockDownloadDescriptor.simulateRetries d = 0%Z /\
  stream = NewBuffer (tar (mockDownloadDescriptor.id d)) /\
  d' = d /\
  c' = (if mockDownloadDescriptor.currentDownloads d
        then wrap32 (wrap32 (counter + 1) - 1) else counter).
Proof.
  unfold mockDownloadDescriptor.Download, mockDownloadDescriptor.Download_enter,
    mockDownloadDescriptor.Download_deferred, mockDownloadDescriptor.Download_finish,
    mockDownloadDescriptor.mockTarStream, tar.
  destruct (mockDownloadDescriptor.currentDownloads d); simpl.
  - destruct (wrap32 (counter + 1) >? maxDownloadConcurrency)%Z eqn:Hover; simpl.
    + apply Z.gtb_lt in Hover. split; [done|]. intros (Hle & _). specialize (Hle eq_refl). lia.
    + assert (wrap32 (counter + 1) <= maxDownloadConcurrency)%Z
        by (destruct (Z.gtb_spec (wrap32 (counter + 1)) maxDownloadConcurrency); [done|lia]).
      destruct done_at as [i|]; [destruct (decide (i <= 10))|];
        try destruct (decide (mockDownloadDescriptor.simulateRetries d <> 0%Z)) as [Hn|Hn];
        try apply dec_stable in Hn;
        (split; [intros [= <- <- <-]|intros (_ & Hi & Hr & -> & -> & ->)]);
        try done; try (split_and!; try done; intros ? [= <-]; lia).
      specialize (Hi _ eq_refl). lia.
  - destruct done_at as [i|]; [destruct (decide (i <= 10))|];
      try destruct (decide (mockDownloadDescriptor.simulateRetries d <> 0%Z)) as [Hn|Hn];
      try apply dec_stable in Hn;
      (split; [intros [= <- <- <-]|intros (_ & Hi & Hr & -> & -> & ->)]);
      try done; try (split_and!; try done; intros ? [= <-]; lia).
    specialize (Hi _ eq_refl). lia.
Qed.


Lemma Download_times_S k d counter :
  Download_times (S k) d counter =
  (let '(d1, c1, r) := mockDownloadDescriptor.Download d None counter in
   let '(d2, c2, rs) := Download_times k d1 c1 in (d2, c2, r :: rs)).
Proof. done. Qed.

Lemma Download_quiet d counter :
  mockDownloadDescriptor.currentDownloads d = false \/ (-2147483648 <= counter < 3)%Z ->
  mockDownloadDescriptor.Download d None counter =
  (let '(d', r) := mockDownloadDescriptor.Download_finish d in (d', counter, r)).
Proof.
  intros Hq.
  unfold mockDownloadDescriptor.Download, mockDownloadDescriptor.Download_enter,
    mockDownloadDescriptor.Download_deferred.
  destruct (mockDownloadDescriptor.currentDownloads d).
  - destruct Hq as [|Hc]; [done|].
    rewrite wrap32_balance by lia.
    assert (Hw : wrap32 (counter + 1) = (counter + 1)%Z) by (apply wrap32_small; lia).
    rewrite Hw.
    destruct (Z.gtb_spec (counter + 1) maxDownloadConcurrency) as [Hgt|_].
    + unfold maxDownloadConcurrency in Hgt. lia.
    + done.
  - done.
Qed.

(** X13. Retries: a descriptor set up with [n] simulated failures fails
    [n] calls of [Download] in a row with the error "simulating retry" and
    succeeds on the next one with its tar stream; after that no failure is
    left, nothing else in the descriptor has changed, and the counter is
    where it was.  This holds when the calls do not run into the limit: the
    descriptor has no counter, or the counter is below the limit. *)
Theorem Download_fails_n_times (n : nat) (d : descriptor) (counter : Z) :
  mockDownloadDescriptor.simulateRetries d = Z.of_nat n ->
  (Z.of_nat n < 9223372036854775808)%Z ->
  mockDownloadDescriptor.currentDownloads d = false \/ (-2147483648 <= counter < 3)%Z ->
  Download_times (S n) d counter =
  (mockDownloadDescriptor.Mk
     (mockDownloadDescriptor.currentDownloads d) (mockDownloadDescriptor.id d)
     (mockDownloadDescriptor.diffID d) (mockDownloadDescriptor.registeredDiffID d)
     (mockDownloadDescriptor.expectedDiffID d) 0,
   counter,
   replicate n (Err (errors_New "simulating retry")) ++
   [Ok (mockDownloadDescriptor.mockTarStream d)]).
Proof.
  revert d. induction n as [|n IH]; intros d Hn Hmax Hq.
  - rewrite Download_times_S, (Download_quiet _ _ Hq).
    unfold mockDownloadDescriptor.Download_finish.
    rewrite decide_False by (rewrite Hn; intros H; by apply H).
    simpl. destruct d; simpl in *. by rewrite Hn.
  - rewrite Download_times_S, (Download_quiet _ _ Hq).
    unfold mockDownloadDescriptor.Download_finish.
    rewrite decide_True by (rewrite Hn; lia).
    cbv zeta beta iota.
    rewrite IH; simpl.
    + done.
    + rewrite Hn, wrap64_small by lia. lia.
    + lia.
    + done.
Qed.

(** X14. [Registered] only records the DiffID it is given, and the last
    one given stays: it changes neither the key nor the ID of the descriptor,
    nor what [DiffID] answers (a DiffID that was unknown stays unknown), nor
    the tar stream, nor what [Download] does.  [DiffID] answers the DiffID
    set beforehand when it is not empty and else an error, never an empty
    DiffID. *)
Theorem Registered_only_records (d : descriptor) (x y : string)
    (done_at : option nat) (counter : Z) :
  mockDownloadDescriptor.registeredDiffID (mockDownloadDescriptor.Registered d x) = x /\
  mockDownloadDescriptor.Registered (mockDownloadDescriptor.Registered d x) y =
    mockDownloadDescriptor.Registered d y /\
  mockDownloadDescriptor.Key (mockDownloadDescriptor.Registered d x) =
    mockDownloadDescriptor.Key d /\
  mockDownloadDescriptor.ID (mockDownloadDescriptor.Registered d x) =
    mockDownloadDescriptor.ID d /\
  mockDownloadDescriptor.DiffID (mockDownloadDescriptor.Registered d x) =
    mockDownloadDescriptor.DiffID d /\
  mockDownloadDescriptor.mockTarStream (mockDownloadDescriptor.Registered d x) =
    mockDownloadDescriptor.mockTarStream d /\
  mockDownloadDescriptor.Download (mockDownloadDescriptor.Registered d x) done_at counter =
    (let '(d', c, r) := mockDownloadDescriptor.Download d done_at counter in
     (mockDownloadDescriptor.Registered d' x, c, r)) /\
  (forall v, mockDownloadDescriptor.DiffID d = Ok v <->
     v = mockDownloadDescriptor.diffID d /\ v <> "") /\
  (forall e, mockDownloadDescriptor.DiffID d = Err e <->
     mockDownloadDescriptor.diffID d = "" /\ e = errors_New "no diffID available").
Proof.
  split_and!; try done.
  - unfold mockDownloadDescriptor.Download, mockDownloadDescriptor.Download_enter,
      mockDownloadDescriptor.Download_deferred, mockDownloadDescriptor.Download_finish.
    simpl. destruct (mockDownloadDescriptor.currentDownloads d); simpl;
      [destruct (wrap32 (counter + 1) >? maxDownloadConcurrency)%Z; simpl; [done|]|];
      (destruct done_at as [i|]; [destruct (decide (i <= 10)); [done|]|]);
      by destruct (decide (mockDownloadDescriptor.simulateRetries d <> 0%Z)).
  - intros v. unfold mockDownloadDescriptor.DiffID.
    destruct (decide (mockDownloadDescriptor.diffID d <> "")) as [Hn|Hn].
    + split; [by intros [= <-]|by intros [-> _]].
    + split; [done|]. intros [-> Hv]. by destruct Hn.
  - intros e. unfold mockDownloadDescriptor.DiffID.
    destruct (decide (mockDownloadDescriptor.diffID d <> "")) as [Hn|Hn].
    + split; [done|]. by intros [? _].
    + apply dec_stable in Hn. split; [by intros [= <-]|by intros [_ ->]].
Qed.

Lemma expected_digest b d :
  d ∈ downloadDescriptors b ->
  Sha256.FromBytes (tar (mockDownloadDescriptor.id d)) =
  Ok (mockDownloadDescriptor.expectedDiffID d).
Proof.
  intros Hd. unfold downloadDescriptors in Hd.
  repeat (apply elem_of_cons in Hd as [->|Hd]); [..|by apply not_elem_of_nil in Hd];
    vm_compute; reflexivity.
Qed.

(** X15. The test data agree with the mock store: for each of the six
    descriptors of [downloadDescriptors], registering its mock tar stream
    without parent, in any store, succeeds with a new layer whose DiffID and
    ChainID are the expected DiffID of the descriptor, under SHA-256.  Each
    descriptor starts with an unknown DiffID and nothing registered, and the
    two descriptors with the ID id2 expect the same DiffID. *)
Theorem downloadDescriptors_expected (b : bool) (d : descriptor) (m : Mem) :
  d ∈ downloadDescriptors b ->
  Register Sha256.FromBytes (mockDownloadDescriptor.mockTarStream d) "" m =
    (Ok (length (objs m)),
     MkMem (objs m ++ [MockLayer (tar (mockDownloadDescriptor.id d))
                         (mockDownloadDescriptor.expectedDiffID d)
                         (mockDownloadDescriptor.expectedDiffID d) None])
           (MockLayerStore (<[mockDownloadDescriptor.expectedDiffID d := length (objs m)]>
                              (layers (ls m))))) /\
  mockDownloadDescriptor.DiffID d = Err (errors_New "no diffID available") /\
  mockDownloadDescriptor.registeredDiffID d = "" /\
  mockDownloadDescriptor.currentDownloads d = b /\
  (forall d', d' ∈ downloadDescriptors b ->
     mockDownloadDescriptor.Key d' = mockDownloadDescriptor.Key d ->
     mockDownloadDescriptor.expectedDiffID d' = mockDownloadDescriptor.expectedDiffID d).
Proof.
  intros Hd. split_and!.
  - rewrite Register_unfold.
    change (resolve_parent "" m) with (@Ok (option loc) None). cbv iota zeta.
    change (r_err (mockDownloadDescriptor.mockTarStream d)) with (@None error).
    change (r_bytes (mockDownloadDescriptor.mockTarStream d))
      with (tar (mockDownloadDescriptor.id d)).
    cbv iota. rewrite (expected_digest _ _ Hd). done.
  - unfold downloadDescriptors in Hd.
    repeat (apply elem_of_cons in Hd as [->|Hd]); [..|by apply not_elem_of_nil in Hd]; done.
  - unfold downloadDescriptors in Hd.
    repeat (apply elem_of_cons in Hd as [->|Hd]); [..|by apply not_elem_of_nil in Hd]; done.
  - unfold downloadDescriptors in Hd.
    repeat (apply elem_of_cons in Hd as [->|Hd]); [..|by apply not_elem_of_nil in Hd]; done.
  - intros d' Hd'. unfold downloadDescriptors in Hd, Hd'.
    repeat (apply elem_of_cons in Hd as [->|Hd]); [..|by apply not_elem_of_nil in Hd];
      (repeat (apply elem_of_cons in Hd' as [->|Hd']); [..|by apply not_elem_of_nil in Hd']);
      done.
Qed.


(** * The OneView profile lookup *)

Section OVFacts.

Variable World : Type.
Variable Method : Type.
Variable GET : Method.
Variable Options : Type.
Variable RefreshLogin : World -> World.
Variable GetAuthHeaderMap : World -> gmap string string.
Variable SetAuthHeaderOptions : gmap string string -> World -> World.
Variable SetQueryString : gmap string string -> World -> World.
Variable RestAPICall :
  Method -> string -> option Options -> World -> (string * option error) * World.
Variable Debugf : string -> string -> World -> World.
Variable Unmarshal :
  string -> OV.ServerProfileList -> OV.ServerProfileList * option error.

#[local] Abbreviation GetProfileNameBySN :=
  (OV.GetProfileNameBySN World Method GET Options RefreshLogin GetAuthHeaderMap
     SetAuthHeaderOptions SetQueryString RestAPICall Debugf Unmarshal).

(** The REST call of the lookup: a GET of the server profiles, made once the
    login is refreshed, the authentication headers are set and the query
    holds the filter on the serial number and the sort order. *)
#[local] Abbreviation request serialnum c :=
  (RestAPICall GET "/rest/server-profiles" None
     (SetQueryString
        {[ "filter" := "serialNumber matches '" +:+ serialnum +:+ "'";
           "sort" := "name:asc" ]}
        (SetAuthHeaderOptions (GetAuthHeaderMap (RefreshLogin c)) (RefreshLogin c)))).

#[local] Abbreviation logged data c := (Debugf "GetProfileNameBySN %s" data c).

Lemma GetProfileNameBySN_unfold serialnum c :
  GetProfileNameBySN serialnum c =
  match request serialnum c with
  | ((data, Some err), c1) => (OV.Returned OV.zero_ServerProfile (Some err), c1)
  | ((data, None), c1) =>
    match Unmarshal data OV.zero_ServerProfileList with
    | (profiles, Some err) => (OV.Returned OV.zero_ServerProfile (Some err), logged data c1)
    | (profiles, None) =>
      if (OV.Total profiles >? 0)%Z then
        match OV.Members profiles with
        | m :: _ => (OV.Returned m None, logged data c1)
        | [] =>
          (OV.Panicked (errors_New "runtime error: index out of range [0] with length 0"),
           logged data c1)
        end
      else (OV.Returned OV.zero_ServerProfile None, logged data c1)
    end
  end.
Proof.
  unfold OV.GetProfileNameBySN.
  destruct (request serialnum c) as [[data [err|]] c1]; [done|].
  by destruct (Unmarshal data OV.zero_ServerProfileList) as [profiles [err|]].
Qed.

(** X16. When the lookup returns an error: exactly when the REST call
    failed, or it succeeded and the decoding of its answer failed.  The
    error is the one of the failing step, the profile returned with it is the
    zero value, and after a failed REST call nothing is logged or decoded. *)
Theorem GetProfileNameBySN_error_iff (serialnum : string) (c c' : World)
    (p : OV.ServerProfile) (e : error) :
  GetProfileNameBySN serialnum c = (OV.Returned p (Some e), c') <->
  p = OV.zero_ServerProfile /\
  ((exists data, request serialnum c = ((data, Some e), c')) \/
   (exists data c1 profiles,
      request serialnum c = ((data, None), c1) /\
      Unmarshal data OV.zero_ServerProfileList = (profiles, Some e) /\
      c' = logged data c1)).
Proof.
  rewrite GetProfileNameBySN_unfold.
  destruct (request serialnum c) as [[data [err|]] c1] eqn:Hreq.
  - split.
    + intros [= <- <- <-]. split; [done|]. left. by exists data.
    + intros [-> [(data' & [= <- <- <-])|(data' & c2 & ps & [= ] & _)]]. done.
  - destruct (Unmarshal data OV.zero_ServerProfileList) as [profiles [err|]] eqn:Hun.
    + split.
      * intros [= <- <- <-]. split; [done|]. right. by exists data, c1, profiles.
      * intros [-> [(data' & [= ])|(data' & c2 & ps & [= <- <-] & Hun' & ->)]].
        rewrite Hun in Hun'. by injection Hun' as <- <-.
    + split.
      * destruct (OV.Total profiles >? 0)%Z; [destruct (OV.Members profiles)|]; done.
      * intros [-> [(data' & [= ])|(data' & c2 & ps & [= <- <-] & Hun' & ->)]].
        rewrite Hun in Hun'. done.
Qed.

(** X17. No match is no error: when the REST call and the decoding succeed
    and the decoded total is zero or negative, the lookup returns the
    zero-value profile with a nil error, whatever the decoded members are; a
    caller cannot tell this from a profile found by the error alone. *)
Theorem GetProfileNameBySN_no_match (serialnum data : string) (c c1 : World)
    (profiles : OV.ServerProfileList) :
  request serialnum c = ((data, None), c1) ->
  Unmarshal data OV.zero_ServerProfileList = (profiles, None) ->
  (OV.Total profiles <= 0)%Z ->
  GetProfileNameBySN serialnum c =
    (OV.Returned OV.zero_ServerProfile None, logged data c1).
Proof.
  intros Hreq Hun Htot. rewrite GetProfileNameBySN_unfold, Hreq, Hun.
  destruct (Z.gtb_spec (OV.Total profiles) 0); [lia|done].
Qed.

(** X18. A positive total selects the first member: when the REST call
    and the decoding succeed with a positive total and at least one member,
    the lookup returns the first member with a nil error, whether or not the
    total is the number of members. *)
Theorem GetProfileNameBySN_first_member (serialnum data : string) (c c1 : World)
    (profiles : OV.ServerProfileList) (m : OV.ServerProfile) :
  request serialnum c = ((data, None), c1) ->
  Unmarshal data OV.zero_ServerProfileList = (profiles, None) ->
  (0 < OV.Total profiles)%Z ->
  OV.Members profiles !! 0 = Some m ->
  GetProfileNameBySN serialnum c = (OV.Returned m None, logged data c1).
Proof.
  intros Hreq Hun Htot Hm. rewrite GetProfileNameBySN_unfold, Hreq, Hun.
  destruct (Z.gtb_spec (OV.Total profiles) 0); [|lia].
  destruct (OV.Members profiles) as [|m' ms]; [done|]. by injection Hm as ->.
Qed.

(** X19. When the lookup panics: exactly when the REST call and the
    decoding succeed with a positive total and no member; the index [0] is
    then out of range.  So the lookup is safe only for answers whose total is
    positive only if they have members. *)
Theorem GetProfileNameBySN_panics_iff (serialnum : string) (c c' : World) (e : error) :
  GetProfileNameBySN serialnum c = (OV.Panicked e, c') <->
  exists data c1 profiles,
    request serialnum c = ((data, None), c1) /\
    Unmarshal data OV.zero_ServerProfileList = (profiles, None) /\
    (0 < OV.Total profiles)%Z /\ OV.Members profiles = [] /\
    e = errors_New "runtime error: index out of range [0] with length 0" /\
    c' = logged data c1.
Proof.
  rewrite GetProfileNameBySN_unfold.
  destruct (request serialnum c) as [[data [err|]] c1] eqn:Hreq.
  - split; [done|]. by intros (data' & c2 & ps & [= ] & _).
  - destruct (Unmarshal data OV.zero_ServerProfileList) as [profiles [err|]] eqn:Hun.
    + split; [done|]. intros (data' & c2 & ps & [= <- <-] & Hun' & _).
      rewrite Hun in Hun'. done.
    + destruct (Z.gtb_spec (OV.Total profiles) 0) as [Hpos|Hneg].
      * destruct (OV.Members profiles) as [|m ms] eqn:Hm.
        -- split.
           ++ intros [= <- <-]. exists data, c1, profiles. by split_and!.
           ++ by intros (data' & c2 & ps & [= <- <-] & Hun' & _ & _ & -> & ->).
        -- split; [done|]. intros (data' & c2 & ps & [= <- <-] & Hun' & _ & Hm' & _).
           rewrite Hun in Hun'. injection Hun' as <-. by rewrite Hm in Hm'.
      * split; [done|]. intros (data' & c2 & ps & [= <- <-] & Hun' & Hpos & _).
        rewrite Hun in Hun'. injection Hun' as <-. lia.
Qed.

End OVFacts.

(** * Examples *)

(** ** The layer store under SHA-256 *)

Lemma createChainIDFromParent_panics_only_on_digest_witness :
  (forall b, is_Ok (Sha256.FromBytes b) = true) /\
  is_Ok (createChainIDFromParent Sha256.FromBytes id1_diffID ["a"; ""; "b"]) = true.
Proof.
  assert (H : forall b, is_Ok (Sha256.FromBytes b) = true) by (intros b; reflexivity).
  split; [exact H|].
  exact (proj2 (proj2 (createChainIDFromParent_panics_only_on_digest
                         Sha256.FromBytes id1_diffID ["a"; ""; "b"])) H).
Defined.

Lemma Register_error_keeps_store_witness :
  Register Sha256.FromBytes broken_stream id1_diffID preregistered =
    (Err (errors_New "unexpected EOF"),
     (Register Sha256.FromBytes broken_stream id1_diffID preregistered).2) /\
  layers (ls (Register Sha256.FromBytes broken_stream id1_diffID preregistered).2) =
    layers (ls preregistered).
Proof.
  assert (H : Register Sha256.FromBytes broken_stream id1_diffID preregistered =
    (Err (errors_New "unexpected EOF"),
     (Register Sha256.FromBytes broken_stream id1_diffID preregistered).2))
    by (vm_compute; reflexivity).
  split; [exact H|].
  exact (proj1 (Register_error_keeps_store Sha256.FromBytes _ _ _ _ _ H)).
Defined.

Lemma Register_then_Get_witness :
  Register Sha256.FromBytes id2_stream id1_diffID preregistered = (Ok 1, two_layers) /\
  exists c, ml.ChainID 1 two_layers = (Ok c, two_layers) /\
    Get c two_layers = (Ok 1, two_layers).
Proof.
  assert (H : Register Sha256.FromBytes id2_stream id1_diffID preregistered =
              (Ok 1, two_layers)) by (vm_compute; reflexivity).
  split; [exact H|].
  destruct (Register_then_Get Sha256.FromBytes _ _ _ _ _ H) as (c & Hc & HG & _).
  exists c. split; [exact Hc|exact HG].
Defined.

Lemma Register_twice_witness :
  Register Sha256.FromBytes id1_stream "" empty_store = (Ok 0, preregistered) /\
  exists l2 m2,
    Register Sha256.FromBytes id1_stream "" preregistered = (Ok l2, m2) /\ l2 <> 0.
Proof.
  assert (H : Register Sha256.FromBytes id1_stream "" empty_store = (Ok 0, preregistered))
    by (vm_compute; reflexivity).
  split; [exact H|].
  destruct (Register_twice Sha256.FromBytes _ _ _ _ _ H) as (l2 & m2 & o1 & o2 & HR & Hne & _).
  exists l2, m2. split; [exact HR|exact Hne].
Defined.

Lemma store_calls_keep_store_ok_witness :
  store_ok Sha256.FromBytes
    (after_calls Sha256.FromBytes empty_store
       [CallRegister id1_stream ""; CallRegister id2_stream id1_diffID;
        CallGet id1_diffID; CallRegister broken_stream id1_diffID;
        CallRelease (Some 0); CallRegister id1_stream ""; CallCleanup]).
Proof.
  apply (proj2 (store_calls_keep_store_ok Sha256.FromBytes empty_store _)).
  apply store_ok_empty.
Defined.

Lemma Get_stack_witness :
  store_ok Sha256.FromBytes two_layers /\
  exists c ds, (Get c two_layers).1 = Ok 1 /\
    stack Sha256.FromBytes (objs two_layers) 1 ds /\
    createChainIDFromParent Sha256.FromBytes "" ds = Ok c /\
    ml.ChainID 1 two_layers = (Ok c, two_layers).
Proof.
  assert (Hok : store_ok Sha256.FromBytes two_layers)
    by (apply store_ok_Register, store_ok_Register, store_ok_empty).
  split; [exact Hok|].
  exists "sha256:512cdd6c83f5a85fc0f18c0e30c41a01d43402ed55ca4c9eebe2a780abcf8298".
  assert (HG : (Get "sha256:512cdd6c83f5a85fc0f18c0e30c41a01d43402ed55ca4c9eebe2a780abcf8298"
                  two_layers).1 = Ok 1) by (vm_compute; reflexivity).
  destruct (Get_stack Sha256.FromBytes _ _ _ Hok HG)
    as (ds & d & bytes & Hs & Hch & _ & Hc & _).
  exists ds. split; [exact HG|]. split; [exact Hs|]. split; [exact Hch|exact Hc].
Defined.

Lemma Register_then_methods_witness :
  Register Sha256.FromBytes id2_stream id1_diffID preregistered = (Ok 1, two_layers) /\
  ml.TarStream 1 two_layers = (Ok id2_stream, two_layers) /\
  ml.Size 1 two_layers = (Ok 0%Z, two_layers).
Proof.
  assert (H : Register Sha256.FromBytes id2_stream id1_diffID preregistered =
              (Ok 1, two_layers)) by (vm_compute; reflexivity).
  split; [exact H|].
  destruct (Register_then_methods Sha256.FromBytes _ _ _ _ _ H)
    as (d & c & _ & _ & HT & _ & _ & _ & _ & HS & _).
  split; [exact HT|exact HS].
Defined.

(** ** The descriptors of the tests *)

Lemma Download_restores_counter_witness :
  (-2147483648 <= 2147483647 < 2147483648)%Z /\
  (mockDownloadDescriptor.Download
     (mockDownloadDescriptor.Mk true "id4" "" "" "" 1) (Some 3) 2147483647).1.2 =
  2147483647%Z.
Proof.
  assert (H : (-2147483648 <= 2147483647 < 2147483648)%Z) by lia.
  split; [exact H|].
  exact (Download_restores_counter _ _ _ H).
Defined.

Lemma Download_succeeds_iff_witness :
  mockDownloadDescriptor.Download
    (mockDownloadDescriptor.Mk true "id5" "" "" "" 0) None 2 =
  (mockDownloadDescriptor.Mk true "id5" "" "" "" 0, 2%Z, Ok (NewBuffer "id5id5id5id5id5")).
Proof.
  apply (proj2 (Download_succeeds_iff _ _ _ _ _ _)).
  split_and!; try reflexivity; intros ?; vm_compute; discriminate.
Defined.


Lemma Download_fails_n_times_witness :
  Download_times 3 (mockDownloadDescriptor.Mk true "id4" "" "" "" 2) 1 =
  (mockDownloadDescriptor.Mk true "id4" "" "" "" 0, 1%Z,
   [Err (errors_New "simulating retry"); Err (errors_New "simulating retry");
    Ok (NewBuffer "id4id4id4id4id4")]).
Proof.
  apply (Download_fails_n_times 2 (mockDownloadDescriptor.Mk true "id4" "" "" "" 2) 1).
  - reflexivity.
  - simpl. lia.
  - right. lia.
Defined.

Lemma Registered_only_records_witness :
  mockDownloadDescriptor.DiffID
    (mockDownloadDescriptor.Registered
       (mockDownloadDescriptor.Mk false "id2" "" "" "" 0) id1_diffID) =
  Err (errors_New "no diffID available").
Proof.
  destruct (Registered_only_records (mockDownloadDescriptor.Mk false "id2" "" "" "" 0)
              id1_diffID "" None 0) as (_ & _ & _ & _ & -> & _ & _ & _ & He).
  apply He. split; reflexivity.
Defined.

Lemma downloadDescriptors_expected_witness :
  mockDownloadDescriptor.Mk true "id4" "" ""
    "sha256:0dfb5b9577716cc173e95af7c10289322c29a6453a1718addc00c0c5b1330936" 1
    ∈ downloadDescriptors true /\
  (Register Sha256.FromBytes (NewBuffer "id4id4id4id4id4") "" preregistered).1 = Ok 1.
Proof.
  assert (H : mockDownloadDescriptor.Mk true "id4" "" ""
    "sha256:0dfb5b9577716cc173e95af7c10289322c29a6453a1718addc00c0c5b1330936" 1
    ∈ downloadDescriptors true).
  { unfold downloadDescriptors. do 4 (apply elem_of_cons; right). apply elem_of_cons. by left. }
  split; [exact H|].
  destruct (downloadDescriptors_expected true _ preregistered H) as (HR & _).
  change (mockDownloadDescriptor.mockTarStream _) with (NewBuffer "id4id4id4id4id4") in HR.
  rewrite HR. reflexivity.
Defined.

(** ** The lookup on example clients *)

Lemma GetProfileNameBySN_error_iff_witness :
  OVExample.GetProfileNameBySN "2M25090RMW"
    (OVExample.appliance "" (Some (errors_New "401 Unauthorized"))) =
  (OV.Returned OV.zero_ServerProfile (Some (errors_New "401 Unauthorized")),
   OVExample.MkWorld ("", Some (errors_New "401 Unauthorized"))
     ["RefreshLogin"; "SetAuthHeaderOptions";
      "SetQueryString serialNumber matches '2M25090RMW'";
      "RestAPICall /rest/server-profiles"]).
Proof.
  apply (proj2 (GetProfileNameBySN_error_iff OVExample.World unit tt unit
    OVExample.RefreshLogin OVExample.GetAuthHeaderMap OVExample.SetAuthHeaderOptions
    OVExample.SetQueryString OVExample.RestAPICall OVExample.Debugf OVExample.Unmarshal
    _ _ _ _ _)).
  split; [reflexivity|]. left. exists "". vm_compute. reflexivity.
Defined.

Lemma GetProfileNameBySN_no_match_witness :
  OVExample.GetProfileNameBySN "2M25090RMW"
    (OVExample.appliance "members, total zero" None) =
  (OV.Returned OV.zero_ServerProfile None,
   OVExample.MkWorld ("members, total zero", None)
     ["RefreshLogin"; "SetAuthHeaderOptions";
      "SetQueryString serialNumber matches '2M25090RMW'";
      "RestAPICall /rest/server-profiles"; "Debugf"]).
Proof.
  apply (GetProfileNameBySN_no_match OVExample.World unit tt unit
    OVExample.RefreshLogin OVExample.GetAuthHeaderMap OVExample.SetAuthHeaderOptions
    OVExample.SetQueryString OVExample.RestAPICall OVExample.Debugf OVExample.Unmarshal
    "2M25090RMW" "members, total zero" (OVExample.appliance "members, total zero" None)
    (OVExample.MkWorld ("members, total zero", None)
       ["RefreshLogin"; "SetAuthHeaderOptions";
        "SetQueryString serialNumber matches '2M25090RMW'";
        "RestAPICall /rest/server-profiles"])
    (OV.MkServerProfileList 0 1 0 "" "" "" [OVExample.named "Server_Profile_scs79"])).
  - vm_compute. reflexivity.
  - vm_compute. reflexivity.
  - simpl. lia.
Defined.

Lemma GetProfileNameBySN_first_member_witness :
  OVExample.GetProfileNameBySN "2M25090RMW" (OVExample.appliance "one profile" None) =
  (OV.Returned (OVExample.named "Server_Profile_scs79") None,
   OVExample.MkWorld ("one profile", None)
     ["RefreshLogin"; "SetAuthHeaderOptions";
      "SetQueryString serialNumber matches '2M25090RMW'";
      "RestAPICall /rest/server-profiles"; "Debugf"]).
Proof.
  apply (GetProfileNameBySN_first_member OVExample.World unit tt unit
    OVExample.RefreshLogin OVExample.GetAuthHeaderMap OVExample.SetAuthHeaderOptions
    OVExample.SetQueryString OVExample.RestAPICall OVExample.Debugf OVExample.Unmarshal
    "2M25090RMW" "one profile" (OVExample.appliance "one profile" None)
    (OVExample.MkWorld ("one profile", None)
       ["RefreshLogin"; "SetAuthHeaderOptions";
        "SetQueryString serialNumber matches '2M25090RMW'";
        "RestAPICall /rest/server-profiles"])
    (OV.MkServerProfileList 1 1 0 "" "" "" [OVExample.named "Server_Profile_scs79"])
    (OVExample.named "Server_Profile_scs79")).
  - vm_compute. reflexivity.
  - vm_compute. reflexivity.
  - simpl. lia.
  - reflexivity.
Defined.

Lemma GetProfileNameBySN_panics_iff_witness :
  OVExample.GetProfileNameBySN "2M25090RMW"
    (OVExample.appliance "one profile, no members" None) =
  (OV.Panicked (errors_New "runtime error: index out of range [0] with length 0"),
   OVExample.MkWorld ("one profile, no members", None)
     ["RefreshLogin"; "SetAuthHeaderOptions";
      "SetQueryString serialNumber matches '2M25090RMW'";
      "RestAPICall /rest/server-profiles"; "Debugf"]).
Proof.
  apply (proj2 (GetProfileNameBySN_panics_iff OVExample.World unit tt unit
    OVExample.RefreshLogin OVExample.GetAuthHeaderMap OVExample.SetAuthHeaderOptions
    OVExample.SetQueryString OVExample.RestAPICall OVExample.Debugf OVExample.Unmarshal
    _ _ _ _)).
  exists "one profile, no members",
    (OVExample.MkWorld ("one profile, no members", None)
       ["RefreshLogin"; "SetAuthHeaderOptions";
        "SetQueryString serialNumber matches '2M25090RMW'";
        "RestAPICall /rest/server-profiles"]),
    (OV.MkServerProfileList 1 0 0 "" "" "" []).
  split_and!; reflexivity.
Defined.
